(** * start_line.utils: aggregation of experiment results

    A shallow embedding of [aggregate_data] and [aggregate_normalize_data]
    (src/start_line/utils.py) and the properties of the trial aggregator.

    Numbers are exact: a Python [int] is an integer, a Python [float] and a
    numpy element are rationals, and [np.std] is the square root of a
    rational.  Rounding of binary floating point is not modelled. *)

From Stdlib Require Import ZArith QArith Qround Reals Qreals Lra Lia.
From Stdlib Require Import String Ascii.
From Stdlib Require Import DecimalString DecimalPos DecimalZ.
From stdpp Require Import base list.

Open Scope string_scope.
Open Scope list_scope.

(* ===================================================================== *)
(** ** Python values                                                      *)
(* ===================================================================== *)

(** A number as Python tags it: [type(x) == int] or [type(x) == float]. *)
Inductive num : Type :=
| NInt (z : Z)
| NFloat (q : Q).

(** What is not a container: a number, a string, [None], a [bool]
    ([type(True) == bool], which is neither [int] nor [float]). *)
Inductive scalar : Type :=
| SNum (n : num)
| SStr (s : string)
| SNone
| SBool (b : bool).

(** An element of a list: a scalar, or an inner list of numbers. *)
Inductive elem : Type :=
| EScalar (s : scalar)
| EList (l : list num).

(** dtype of a one-dimensional numeric [np.ndarray]. *)
Inductive dtype : Type := int64 | float64.

(** The value of a metric in a trial record.  [VOther] is an object of
    any other type: a dict (the one under "parameters" in a result file),
    a tuple, a numpy scalar such as [np.float64(1.5)], ...  The two
    functions only test its type, which is none of [int], [float], [list]
    and [np.ndarray]; nothing else of it is kept. *)
Inductive value : Type :=
| VScalar (s : scalar)
| VList (l : list elem)
| VArray (dt : dtype) (a : list Q)
| VOther.

(** Exceptions the two functions can raise.  The last two are not Python
    exceptions.  [Dangling] is the answer of the model to an address that
    is not in the heap, which no Python reference can be.  [NonFinite] is
    its answer where numpy would put inf or nan into an array (an element
    divided by zero), which the exact numbers of the model cannot hold. *)
Inductive exn : Type :=
| IndexError
| TypeError
| ZeroDivisionError
| KeyError
| ValueError
| Dangling
| NonFinite.

Inductive result (A : Type) : Type :=
| Ok (a : A)
| Raise (e : exn).
Arguments Ok {A} a.
Arguments Raise {A} e.

#[global] Instance result_ret : MRet result := fun A a => Ok a.

#[global] Instance result_bind : MBind result := fun A B f r =>
  match r with
  | Ok a => f a
  | Raise e => Raise e
  end.

(** [for x in xs: body], where the body threads a state and may raise. *)
Fixpoint for_each {A S : Type} (xs : list A) (body : A -> S -> result S)
    (s : S) : result S :=
  match xs with
  | [] => Ok s
  | x :: xs' => s' ← body x s; for_each xs' body s'
  end.

(* ===================================================================== *)
(** ** Dictionaries in insertion order                                    *)
(* ===================================================================== *)

Definition dict (V : Type) : Type := list (string * V).

Fixpoint dict_get {V : Type} (k : string) (d : dict V) : option V :=
  match d with
  | [] => None
  | (k', v) :: d' => if String.eqb k' k then Some v else dict_get k d'
  end.

(** [d[k] = v]: the entry keeps its place, a new key goes last. *)
Fixpoint dict_set {V : Type} (k : string) (v : V) (d : dict V) : dict V :=
  match d with
  | [] => [(k, v)]
  | (k', v') :: d' =>
      if String.eqb k' k then (k', v) :: d' else (k', v') :: dict_set k v d'
  end.

Definition dict_mem {V : Type} (k : string) (d : dict V) : bool :=
  match dict_get k d with Some _ => true | None => false end.

Definition dict_keys {V : Type} (d : dict V) : list string := map fst d.

(** [d[k]] of Python. *)
Definition getitem {V : Type} (d : dict V) (k : string) : result V :=
  match dict_get k d with
  | Some v => Ok v
  | None => Raise KeyError
  end.

Definition record : Type := dict value.

(* ===================================================================== *)
(** ** numpy                                                              *)
(* ===================================================================== *)

Definition num_Q (n : num) : Q :=
  match n with
  | NInt z => inject_Z z
  | NFloat q => q
  end.

Definition is_int (n : num) : bool :=
  match n with NInt _ => true | NFloat _ => false end.

(** The dtype of [np.array(l)] on a list of numbers: int64 when the list
    is not empty and holds only ints, float64 otherwise.  Its elements are
    [map num_Q l]. *)
Definition np_dtype (l : list num) : dtype :=
  match l with
  | [] => float64
  | _ => if forallb is_int l then int64 else float64
  end.

(** An observation in a pool: a number, or a string (a character that
    [list(s)] took out of a string [s]). *)
Inductive pelem : Type :=
| PNum (q : Q)
| PStr (s : string).

(** A float64 that numpy returns: nan, a rational, or the square root of a
    rational. *)
Inductive npfloat : Type :=
| nan
| fin (q : Q)
| sqrt_fin (q : Q).

(** The real number an [npfloat] stands for. *)
Definition npfloat_R (x : npfloat) : option R :=
  match x with
  | nan => None
  | fin q => Some (Q2R q)
  | sqrt_fin q => Some (sqrt (Q2R q))
  end.

(** The numbers of a pool; [None] when one observation is a string. *)
Fixpoint pool_numbers (p : list pelem) : option (list Q) :=
  match p with
  | [] => Some []
  | PNum q :: p' =>
      match pool_numbers p' with
      | Some qs => Some (q :: qs)
      | None => None
      end
  | PStr _ :: _ => None
  end.

Definition Qsum (qs : list Q) : Q := fold_right Qplus 0%Q qs.

Definition Qmean (qs : list Q) : Q :=
  Qred (Qsum qs / inject_Z (Z.of_nat (length qs))).

(** [np.mean(p)]: nan (and a warning) on an empty list, TypeError on
    strings. *)
Definition np_mean (p : list pelem) : result npfloat :=
  match pool_numbers p with
  | None => Raise TypeError
  | Some [] => Ok nan
  | Some qs => Ok (fin (Qmean qs))
  end.

(** [np.std(p)]: the population standard deviation,
    [sqrt(mean(abs(x - mean(x))**2))]. *)
Definition np_std (p : list pelem) : result npfloat :=
  match pool_numbers p with
  | None => Raise TypeError
  | Some [] => Ok nan
  | Some qs =>
      let m := Qmean qs in
      Ok (sqrt_fin (Qmean (map (fun x => (x - m) * (x - m))%Q qs)))
  end.

(* ===================================================================== *)
(** ** aggregate_data                                                     *)
(* ===================================================================== *)

(** [if k not in ret_dict: ret_dict[k] = []]. *)
Definition init_pool (k : string) (ret_dict : dict (list pelem))
    : dict (list pelem) :=
  if dict_mem k ret_dict then ret_dict else dict_set k [] ret_dict.

(** [ret_dict[k] += obs], and [ret_dict[k].append(x)] with [obs = [x]]. *)
Definition extend_pool (k : string) (obs : list pelem)
    (ret_dict : dict (list pelem)) : dict (list pelem) :=
  match dict_get k ret_dict with
  | Some p => dict_set k (p ++ obs) ret_dict
  | None => ret_dict
  end.

Definition add_obs (k : string) (obs : list pelem)
    (ret_dict : dict (list pelem)) : dict (list pelem) :=
  extend_pool k obs (init_pool k ret_dict).

(** [list(s)] on a string: its characters. *)
Fixpoint chars (s : string) : list pelem :=
  match s with
  | EmptyString => []
  | String c s' => PStr (String c EmptyString) :: chars s'
  end.

(** [list(e)] on the first element of a list. *)
Definition list_of_elem (e : elem) : result (list pelem) :=
  match e with
  | EList l => Ok (map (fun n => PNum (num_Q n)) l)
  | EScalar (SStr s) => Ok (chars s)
  | EScalar _ => Raise TypeError
  end.

(** The body of the inner loop of [aggregate_data], on [k] and [l[k]]:
    the four branches in the order of the source. *)
Definition aggregate_value (k : string) (v : value)
    (ret_dict : dict (list pelem)) : result (dict (list pelem)) :=
  match v with
  | VScalar (SNum n) => Ok (add_obs k [PNum (num_Q n)] ret_dict)
  | VScalar _ => Ok ret_dict
  | VList [] => Raise IndexError
  | VList (EScalar (SNum n) :: _) => Ok (add_obs k [PNum (num_Q n)] ret_dict)
  | VArray _ a => Ok (add_obs k (map PNum a) ret_dict)
  | VList (e :: _) => obs ← list_of_elem e; Ok (add_obs k obs ret_dict)
  | VOther => Ok ret_dict
  end.

(** [for k in l: ...]. *)
Definition aggregate_record (l : record) (ret_dict : dict (list pelem))
    : result (dict (list pelem)) :=
  for_each (dict_keys l)
    (fun k rd => v ← getitem l k; aggregate_value k v rd) ret_dict.

(** [ret_dict[i] = (np.mean(ret_dict[i]), np.std(ret_dict[i]))]. *)
Fixpoint mean_std (ret_dict : dict (list pelem))
    : result (dict (npfloat * npfloat)) :=
  match ret_dict with
  | [] => Ok []
  | (i, p) :: rest =>
      m ← np_mean p;
      s ← np_std p;
      rest' ← mean_std rest;
      Ok ((i, (m, s)) :: rest')
  end.

Definition aggregate_data (results : list record)
    : result (dict (npfloat * npfloat)) :=
  ret_dict ← for_each results aggregate_record [];
  mean_std ret_dict.

(* ===================================================================== *)
(** ** Mutable state                                                      *)
(* ===================================================================== *)

(** A computation on a state [S] that returns or raises; the state
    survives an exception, as the objects of Python do. *)
Definition ST (S A : Type) : Type := S -> result A * S.

#[global] Instance ST_ret {S : Type} : MRet (ST S) := fun A a s => (Ok a, s).

#[global] Instance ST_bind {S : Type} : MBind (ST S) := fun A B f m s =>
  match m s with
  | (Ok a, s') => f a s'
  | (Raise e, s') => (Raise e, s')
  end.

Definition lift {S A : Type} (r : result A) : ST S A := fun s => (r, s).

(** [for x in xs: body] with an accumulator [acc] local to the loop. *)
Fixpoint for_eachS {S A B : Type} (xs : list A) (body : A -> B -> ST S B)
    (acc : B) : ST S B :=
  match xs with
  | [] => mret acc
  | x :: xs' => acc' ← body x acc; for_eachS xs' body acc'
  end.

(** The dict objects of the program live in a heap; a reference to a dict
    is its index, and the list [results] is a list of references.  The
    values of a dict are kept inside it as trees: the program writes to
    dicts (it assigns [data_point[key]]); the one write to a list or an
    array, the in-place division of line 178, is modelled as a write to
    the dict that holds it. *)
Abbreviation loc := nat.
Abbreviation heap := (list record).

Definition load (l : loc) : ST heap record := fun h =>
  match h !! l with
  | Some r => (Ok r, h)
  | None => (Raise Dangling, h)
  end.

Definition alloc (r : record) : ST heap loc := fun h =>
  (Ok (length h), h ++ [r]).

(** Runs on the dict at [l] a computation written on a dict. *)
Definition at_loc {A : Type} (l : loc) (m : ST record A) : ST heap A :=
  fun h =>
    match h !! l with
    | Some r => let '(a, r') := m r in (a, <[l := r']> h)
    | None => (Raise Dangling, h)
    end.

(** [data_point[key]] and [data_point[key] = v] on the dict at hand. *)
Definition dp_get (key : string) : ST record value := fun r =>
  (getitem r key, r).

Definition dp_set (key : string) (v : value) : ST record unit := fun r =>
  (Ok tt, dict_set key v r).

(** The keys that [for key in data_point] goes through. *)
Definition dp_keys : ST record (list string) := fun r =>
  (Ok (dict_keys r), r).

(* ===================================================================== *)
(** ** Strings                                                            *)
(* ===================================================================== *)

(** [s.split(sep)] for a one-character separator. *)
Fixpoint split (sep : ascii) (s : string) : list string :=
  match s with
  | EmptyString => [EmptyString]
  | String c s' =>
      if Ascii.eqb c sep then EmptyString :: split sep s'
      else match split sep s' with
           | seg :: segs => String c seg :: segs
           | [] => [String c EmptyString]
           end
  end.

(** [key.split("_")[-1]]. *)
Definition data_type_of (key : string) : string :=
  List.last (split "_"%char key) EmptyString.

(** [str(baseline)] inside [format]: [None] prints as ["None"]. *)
Definition str_of_baseline (baseline : option string) : string :=
  match baseline with
  | Some b => b
  | None => "None"
  end.

(** ["{}_{}".format(baseline, data_type)]. *)
Definition format_key (baseline : option string) (data_type : string)
    : string :=
  (str_of_baseline baseline ++ "_" ++ data_type)%string.

(* ===================================================================== *)
(** ** aggregate_normalize_data                                           *)
(* ===================================================================== *)

(** A baseline series kept in [avg_by_type]: an array, or a scalar. *)
Inductive series : Type :=
| SerArray (dt : dtype) (a : list Q)
| SerScalar (q : Q).

(** [type(v) == list and type(v[0]) == list]: the inner list when both
    hold; [v[0]] raises on the empty list. *)
Definition is_list_of_list (v : value) : result (option (list num)) :=
  match v with
  | VList [] => Raise IndexError
  | VList (EList inner :: _) => Ok (Some inner)
  | _ => Ok None
  end.

(** [a[0]] on an array. *)
Definition array_first (a : list Q) : result Q :=
  match a with
  | [] => Raise IndexError
  | x :: _ => Ok x
  end.

(** Lines 156-167, the body of the first loop over the keys of
    [data_point].  [arr] is [data_point[key]] after line 159. *)
Definition first_loop_body (baseline : option string) (key : string)
    (avg_by_type : dict series) : ST record (dict series) :=
  v ← dp_get key;
  t ← lift (is_list_of_list v);
  match t with
  | Some inner =>
      let is_list := true in
      let dt := np_dtype inner in
      let arr := map num_Q inner in
      _ ← dp_set key (VArray dt arr);
      let data_type := data_type_of key in
      if negb (dict_mem data_type avg_by_type)
         && String.eqb key (format_key baseline data_type)
      then
        if is_list then mret (dict_set data_type (SerArray dt arr) avg_by_type)
        else x ← lift (array_first arr);
             mret (dict_set data_type (SerScalar x) avg_by_type)
      else mret avg_by_type
  | None => mret avg_by_type
  end.

(** [b != 0], element by element. *)
Definition nonzero_mask (b : list Q) : list bool :=
  map (fun x => negb (Qeq_bool x 0)) b.

(** The elements of [a] that the mask keeps. *)
Fixpoint select {A : Type} (a : list A) (m : list bool) : list A :=
  match a, m with
  | x :: a', true :: m' => x :: select a' m'
  | _ :: a', false :: m' => select a' m'
  | _, _ => []
  end.

(** [v[m]] for a boolean array [m]: an array of the same length only.
    A scalar, a list and a dict, a tuple or a numpy scalar raise. *)
Definition getitem_mask (v : value) (m : list bool) : result (list Q) :=
  match v with
  | VArray _ a =>
      if Nat.eqb (length a) (length m) then Ok (select a m)
      else Raise IndexError
  | _ => Raise TypeError
  end.

(** [x / y] on arrays of the same length.  Line 174 divides two arrays
    that the same mask selected: the lengths agree and no divisor is
    zero. *)
Fixpoint true_divide (xs ys : list Q) : result (list Q) :=
  match xs, ys with
  | [], [] => Ok []
  | x :: xs', y :: ys' =>
      if Qeq_bool y 0 then Raise NonFinite
      else qs ← true_divide xs' ys'; Ok ((x / y)%Q :: qs)
  | _, _ => Raise ValueError
  end.

(** Line 174: [data_point[key][b != 0] / b[b != 0]]. *)
Definition divide_masked (v : value) (b : list Q) : result value :=
  xs ← getitem_mask v (nonzero_mask b);
  qs ← true_divide xs (select b (nonzero_mask b));
  Ok (VArray float64 qs).

(** The integer a C cast makes of a float: rounding towards zero. *)
Definition Qtrunc (q : Q) : Z := Z.quot (Qnum q) (Zpos (Qden q)).

(** Line 178: [v[0] /= d] on the value [v] of [data_point[key]].  On an
    object of another type the statement raises too, whichever exception
    its type gives ([TypeError] stands for it). *)
Definition idiv_first (v : value) (d : Q) : result value :=
  match v with
  | VScalar (SStr EmptyString) => Raise IndexError
  | VScalar _ => Raise TypeError
  | VList [] => Raise IndexError
  | VList (EScalar (SNum n) :: rest) =>
      if Qeq_bool d 0 then Raise ZeroDivisionError
      else Ok (VList (EScalar (SNum (NFloat (num_Q n / d))) :: rest))
  | VList (EScalar (SBool b) :: rest) =>
      if Qeq_bool d 0 then Raise ZeroDivisionError
      else Ok (VList (EScalar (SNum (NFloat ((if b then 1 else 0) / d)))
                        :: rest))
  | VList (_ :: _) => Raise TypeError
  | VArray _ [] => Raise IndexError
  | VArray float64 (x :: a) =>
      if Qeq_bool d 0 then Raise NonFinite
      else Ok (VArray float64 ((x / d)%Q :: a))
  | VArray int64 (x :: a) =>
      if Qeq_bool d 0 then Raise NonFinite
      else Ok (VArray int64 (inject_Z (Qtrunc (x / d)) :: a))
  | VOther => Raise TypeError
  end.

(** Lines 170-178, the body of the second loop. *)
Definition second_loop_body (avg_by_type : dict series) (key : string)
    (_ : unit) : ST record unit :=
  let data_type := data_type_of key in
  match dict_get data_type avg_by_type with
  | Some (SerArray _ b) =>
      v ← dp_get key;
      match divide_masked v b with
      | Ok v' => dp_set key v'
      | Raise _ => mret tt
      end
  | Some (SerScalar d) =>
      v ← dp_get key;
      v' ← lift (idiv_first v d);
      dp_set key v'
  | None => mret tt
  end.

(** Lines 154-178, the body of the loop over [results_copy]. *)
Definition normalize_data_point (baseline : option string)
    : ST record unit :=
  keys ← dp_keys;
  avg_by_type ← for_eachS keys (first_loop_body baseline) [];
  match baseline with
  | Some _ =>
      keys ← dp_keys;
      for_eachS keys (second_loop_body avg_by_type) tt
  | None => mret tt
  end.

(** The copy that the memo of [deepcopy] holds for the dict at [l]. *)
Fixpoint memo_get (l : loc) (memo : list (loc * loc)) : option loc :=
  match memo with
  | [] => None
  | (l0, l') :: memo' => if Nat.eqb l0 l then Some l' else memo_get l memo'
  end.

(** [deepcopy] of a list of dicts.  The memo maps a dict that was copied
    to its copy; the values of a dict are trees, which a copy repeats. *)
Fixpoint deepcopy (results : list loc) (memo : list (loc * loc))
    : ST heap (list loc) :=
  match results with
  | [] => mret []
  | l :: rest =>
      match memo_get l memo with
      | Some l' =>
          ls ← deepcopy rest memo; mret (l' :: ls)
      | None =>
          r ← load l;
          l' ← alloc r;
          ls ← deepcopy rest ((l, l') :: memo);
          mret (l' :: ls)
      end
  end.

(** The dicts a list of references stands for. *)
Fixpoint load_all (ls : list loc) : ST heap (list record) :=
  match ls with
  | [] => mret []
  | l :: ls' => r ← load l; rs ← load_all ls'; mret (r :: rs)
  end.

(** [aggregate_data(results)] on references. *)
Definition aggregate_data_at (results : list loc)
    : ST heap (dict (npfloat * npfloat)) :=
  rs ← load_all results;
  lift (aggregate_data rs).

Definition aggregate_normalize_data (results : list loc)
    (baseline : option string) : ST heap (dict (npfloat * npfloat)) :=
  results_copy ← deepcopy results [];
  _ ← for_eachS results_copy
        (fun data_point _ => at_loc data_point (normalize_data_point baseline))
        tt;
  aggregate_data_at results_copy.

(* ===================================================================== *)
(** ** Result files                                                       *)
(* ===================================================================== *)

(** [str(seed)] on an integer. *)
Definition str_of_int (seed : Z) : string :=
  NilZero.string_of_int (Z.to_int seed).

(** [s.replace(a, b)] for two characters. *)
Fixpoint replace_char (a b : ascii) (s : string) : string :=
  match s with
  | EmptyString => EmptyString
  | String c s' =>
      String (if Ascii.eqb c a then b else c) (replace_char a b s')
  end.

(** [get_save_path].  The clock and the random token are inputs:
    [now_string] is [datetime.now().strftime("%B_%d_%Y_%I:%M_%p")] and
    [token] is [secrets.token_hex(2)]. *)
Definition get_save_path (folder_name result_name : string) (seed : Z)
    (use_date : bool) (now_string token : string) : string :=
  let seedstr := str_of_int seed in
  let suffix :=
    (folder_name ++ "/" ++ result_name ++ "_" ++ seedstr)%string in
  let nice_datetime_string := replace_char ":" "_" now_string in
  let suffix :=
    if use_date
    then (suffix ++ "_" ++ nice_datetime_string ++ "_" ++ token)%string
    else suffix in
  (suffix ++ ".json")%string.

(** The text of a file as Python reads it: a [str], a sequence of
    characters, each given by its code point. *)
Definition text : Type := list N.

(** The closing brace and the double quote. *)
Definition rbrace : N := 125.
Definition dquote : N := 34.

(** [s.split(sep)] on a text, for a one-character separator. *)
Fixpoint split_text (sep : N) (s : text) : list text :=
  match s with
  | [] => [[]]
  | c :: s' =>
      if N.eqb c sep then [] :: split_text sep s'
      else match split_text sep s' with
           | seg :: segs => (c :: seg) :: segs
           | [] => [[c]]
           end
  end.

(** Lines 55-56 and 81-82: of the text of a result file, the first 1000
    characters ([f.read(1000)]) up to the first closing brace, closed by
    two braces; this is what [json.loads] is given. *)
Definition first_few (content : text) : text :=
  List.hd [] (split_text rbrace (firstn 1000 content)) ++ [rbrace; rbrace].

(** The character occurs in the text. *)
Definition has_char (c : N) (s : text) : bool := existsb (N.eqb c) s.

(** The text of a literal of ASCII characters. *)
Definition ascii_text (s : string) : text :=
  map N_of_ascii (list_ascii_of_string s).

(** The same between double quotes. *)
Definition quoted (s : string) : text := dquote :: ascii_text s ++ [dquote].

(** What a result file starts with, up to its first closing brace:
    [{"parameters": {"seed": 43, "arms": 10]. *)
Definition header_text : text :=
  ascii_text "{" ++ quoted "parameters" ++ ascii_text ": {"
  ++ quoted "seed" ++ ascii_text ": 43, " ++ quoted "arms"
  ++ ascii_text ": 10".

(** What follows that brace: [, "reward": [[1, 2]]}]. *)
Definition body_text : text :=
  ascii_text ", " ++ quoted "reward" ++ ascii_text ": [[1, 2]]}".

(* ===================================================================== *)
(** ** Inputs of the scenarios                                            *)
(* ===================================================================== *)

Definition int_elem (z : Z) : elem := EScalar (SNum (NInt z)).

(** [[{"a": 1, "a_b": [10,20]}, {"a": 3, "a_b": [30]}]]. *)
Definition scenario : list record :=
  [ [("a", VScalar (SNum (NInt 1))); ("a_b", VList [int_elem 10; int_elem 20])];
    [("a", VScalar (SNum (NInt 3))); ("a_b", VList [int_elem 30])] ].

(** [{"b_r": [[0,2,4]], "m_r": [[10,20,30]]}], to normalise with
    baseline ["b"]. *)
Definition zero_filter_point : record :=
  [ ("b_r", VList [EList [NInt 0; NInt 2; NInt 4]]);
    ("m_r", VList [EList [NInt 10; NInt 20; NInt 30]]) ].

(** [[{"a": np.array([])}]]. *)
Definition empty_array_results : list record :=
  [ [("a", VArray float64 [])] ].

(** [[{"a": []}]] and [[{"a": ["x", "y"]}]]. *)
Definition empty_list_results : list record := [ [("a", VList [])] ].

Definition string_list_results : list record :=
  [ [("a", VList [EScalar (SStr "x"); EScalar (SStr "y")])] ].

(** A heap of two trials with list-of-list metrics, one of them under the
    key that [format] makes of no baseline. *)
Definition nested_heap : heap :=
  [ [("a", VList [EList [NInt 1; NInt 2; NInt 3]]);
     ("None_a", VList [EList [NInt 5; NInt 7]])];
    [("a", VList [EList [NInt 4; NInt 5]]); ("c", VScalar (SNum (NFloat 0.5)))] ].

(** A heap of two trials whose baseline ["b_r"] is all ones. *)
Definition ones_heap : heap :=
  [ [("b_r", VList [EList [NInt 1; NInt 1; NInt 1]]);
     ("m_r", VList [EList [NInt 10; NInt 20; NInt 30]]);
     ("x_r", VScalar (SNum (NInt 5)))];
    [("b_r", VList [EList [NFloat 1; NFloat 1]]);
     ("m_r", VList [EList [NFloat 2.5; NInt 4]]);
     ("s_r", VArray int64 [7%Q])] ].

(** "Approximately 8.16": 8.16 when rounded to two decimals. *)
Definition approx_8_16 (x : R) : Prop := (8.155 <= x < 8.165)%R.

(** What the dispatch of [aggregate_data] passes over: every value whose
    type is none of [int], [float], [list] and [np.ndarray], that is a
    string, [None], a [bool], and any other object. *)
Definition skipped (v : value) : Prop :=
  match v with
  | VScalar (SNum _) => False
  | VScalar _ => True
  | VList _ => False
  | VArray _ _ => False
  | VOther => True
  end.

Definition is_array_series (s : series) : Prop :=
  match s with
  | SerArray _ _ => True
  | SerScalar _ => False
  end.

(** What line 159 makes of a value: the array of the inner list when the
    value is a list of list, the value itself otherwise. *)
Definition conv (v : value) : value :=
  match v with
  | VList (EList inner :: _) => VArray (np_dtype inner) (map num_Q inner)
  | _ => v
  end.

(** Two values that [aggregate_data] cannot tell apart. *)
Definition agg_eq (v v' : value) : Prop :=
  forall k rd, aggregate_value k v rd = aggregate_value k v' rd.

(** Two dicts with the same keys in the same order and values that
    [aggregate_data] cannot tell apart. *)
Definition rec_eq (r r' : record) : Prop :=
  dict_keys r = dict_keys r'
  /\ forall k, option_Forall2 agg_eq (dict_get k r) (dict_get k r').

(** Every baseline series of the dict is all ones: the inner list of a
    list-of-list value under a key [baseline_S], where [S] is the suffix
    of the key, holds only 1 or 1.0. *)
Definition ones_baseline (baseline : option string) (r : record) : Prop :=
  forall S inner rest,
    data_type_of (format_key baseline S) = S ->
    dict_get (format_key baseline S) r = Some (VList (EList inner :: rest)) ->
    Forall (fun n => num_Q n = 1%Q) inner.

(** The number is 1 or 1.0. *)
Definition is_one (n : num) : bool :=
  match n with
  | NInt z => Z.eqb z 1
  | NFloat q => Z.eqb (Qnum q) 1 && Pos.eqb (Qden q) 1
  end.

(** A scalar, or a flat list of scalars. *)
Definition flat (v : value) : Prop :=
  match v with
  | VScalar _ => True
  | VList l => Forall (fun e => exists s, e = EScalar s) l
  | VArray _ _ => False
  | VOther => False
  end.

(** The baseline series of the suffix group [S] in a dict, the inner
    list of a list of list under the key [b_S], holds only 1 or 1.0. *)
Definition group_onesb (b S : string) (r : record) : bool :=
  match dict_get (format_key (Some b) S) r with
  | Some (VList (EList inner :: _)) => forallb is_one inner
  | _ => true
  end.

(** A heap of two trials with two suffix groups: the baseline of group
    [r] is all ones, that of group [c] is not. *)
Definition two_groups_heap : heap :=
  [ [("b_r", VList [EList [NInt 1; NInt 1]]);
     ("m_r", VList [EList [NInt 3; NInt 4]]);
     ("b_c", VList [EList [NInt 2; NInt 2]]);
     ("m_c", VList [EList [NInt 5; NInt 6]])];
    [("b_r", VList [EList [NFloat 1; NFloat 1; NFloat 1]]);
     ("m_r", VList [EList [NInt 6; NInt 7; NInt 8]]);
     ("b_c", VList [EList [NInt 0; NInt 4]]);
     ("m_c", VList [EList [NInt 1; NInt 2]])] ].

(** Some record holds, under [k], a list of list whose inner list has an
    element that is not zero. *)
Definition has_nonzero (k : string) (rs : list record) : bool :=
  existsb (fun r : record =>
             match dict_get k r with
             | Some (VList (EList inner :: _)) =>
                 existsb (fun n => negb (Qeq_bool (num_Q n) 0)) inner
             | _ => false
             end) rs.

(** A heap of two trials: the baseline of group [r] has elements that
    are not zero, that of group [c] is zero throughout. *)
Definition zero_baseline_heap : heap :=
  [ zero_filter_point;
    [("b_c", VList [EList [NInt 0; NInt 0]]);
     ("m_c", VList [EList [NInt 5; NInt 6]])] ].

(** Some record has the key [k]. *)
Definition occurs (k : string) (rs : list record) : bool :=
  existsb (fun r : record => dict_mem k r) rs.

(** [[{"a": 1, "a_b": [10, 20]}, {"c": 7}, {"a": 3, "a_b": [30, 40, 50]}]]. *)
Definition first_element_results : list record :=
  [ [("a", VScalar (SNum (NInt 1))); ("a_b", VList [int_elem 10; int_elem 20])];
    [("c", VScalar (SNum (NInt 7)))];
    [("a", VScalar (SNum (NInt 3)));
     ("a_b", VList [int_elem 30; int_elem 40; int_elem 50])] ].

(** [[{"b_r": [2.0], "m_r": [10.0]}]], to normalise with baseline ["b"]. *)
Definition scalar_baseline_heap : heap :=
  [ [("b_r", VList [EScalar (SNum (NFloat 2))]);
     ("m_r", VList [EScalar (SNum (NFloat 10))])] ].

(** [[{"a": np.float64(1.5), "b": 1}, {"a": "x", "parameters": {...}}]]:
    a numpy scalar, a string and a dict are none of the four types. *)
Definition other_results : list record :=
  [ [("a", VOther); ("b", VScalar (SNum (NInt 1)))];
    [("a", VScalar (SStr "x")); ("parameters", VOther)] ].

(** Two dicts with the same keys whose values under the keys of the
    suffix group [S] aggregate alike. *)
Definition group_eq (S : string) (r r' : record) : Prop :=
  dict_keys r = dict_keys r'
  /\ forall k, data_type_of k = S ->
       option_Forall2 agg_eq (dict_get k r) (dict_get k r').

(** What a run keeps of a heap: the dicts below [n], where they are. *)
Definition kept (n : nat) (h h' : heap) : Prop :=
  length h <= length h' /\ forall l, l < n -> h' !! l = h !! l.

(** The shapes that the two functions take without raising: a scalar of
    any kind, a list whose first element is a number or an inner list of
    numbers, a numeric array. *)
Definition well_shapedb (v : value) : bool :=
  match v with
  | VScalar _ => true
  | VList (EScalar (SNum _) :: _) => true
  | VList (EList _ :: _) => true
  | VList _ => false
  | VArray _ _ => true
  | VOther => false
  end.

Definition well_shaped_record (r : record) : bool :=
  forallb (fun kv : string * value => well_shapedb (snd kv)) r.

(** Every value that the dict gives for a key is well shaped. *)
Definition shaped (r : record) : Prop :=
  forall k v, dict_get k r = Some v -> well_shapedb v = true.

(** A pool of numbers. *)
Definition numeric (p : list pelem) : Prop :=
  Forall (fun e => exists q, e = PNum q) p.

(** [[{"a": []}]] as a heap. *)
Definition empty_list_heap : heap := [ [("a", VList [])] ].

(** A heap of well-shaped trials, with values that are skipped. *)
Definition mixed_heap : heap :=
  [ [("b_r", VList [EList [NInt 0; NInt 2; NInt 4]]);
     ("m_r", VList [EList [NInt 10; NInt 20; NInt 30]]);
     ("note", VScalar (SStr "run 1")); ("ok", VScalar (SBool true))];
    [("m_r", VArray int64 [1; 2]%Q); ("note", VScalar SNone);
     ("t", VList [EScalar (SNum (NFloat (1 # 2))); EScalar (SStr "s")])] ].

(** A dict with [f] applied to each value. *)
Definition map_values {V W : Type} (f : V -> W) (d : dict V) : dict W :=
  map (fun kv => (fst kv, f (snd kv))) d.

(** The dict holds a baseline series: a list of list under a key
    [baseline_S] whose suffix is [S]. *)
Definition has_baseline (baseline : option string) (r : record) : bool :=
  existsb (fun kv : string * value =>
             String.eqb (fst kv) (format_key baseline (data_type_of (fst kv)))
             && match snd kv with
                | VList (EList _ :: _) => true
                | _ => false
                end) r.

(** A heap whose trials hold arrays and flat lists only; the baseline
    ["b_r"] is an array, not a list of list. *)
Definition array_heap : heap :=
  [ [("b_r", VArray int64 [2; 4]%Q); ("m_r", VArray int64 [10; 20]%Q)];
    [("b_r", VArray int64 [5]%Q); ("m_r", VList [int_elem 30; int_elem 40])] ].

(** The observations that [aggregate_data] takes from one value: the
    number itself, the first element of a list that starts with a number,
    every element of an array or of the inner list of a list of list, the
    characters of a string that starts a list; nothing from a string,
    [None] or a [bool]. *)
Definition observations (v : value) : list pelem :=
  match v with
  | VScalar (SNum n) => [PNum (num_Q n)]
  | VScalar _ => []
  | VList (EScalar (SNum n) :: _) => [PNum (num_Q n)]
  | VList (EList inner :: _) => map (fun n => PNum (num_Q n)) inner
  | VList (EScalar (SStr s) :: _) => chars s
  | VList _ => []
  | VArray _ a => map PNum a
  | VOther => []
  end.

(** The observations of metric [k] over the records, in their order. *)
Definition pool_of (k : string) (results : list record) : list pelem :=
  concat (map (fun r => match dict_get k r with
                        | Some v => observations v
                        | None => []
                        end) results).

(** [[{"m": np.array([1,2,3])}, {"m": np.array([4,5]), "n": 2.5}]]. *)
Definition pooled_results : list record :=
  [ [("m", VArray int64 [1; 2; 3]%Q)];
    [("m", VArray int64 [4; 5]%Q); ("n", VScalar (SNum (NFloat 2.5)))] ].

(** The quotients [x / y] of two series over the positions where the
    divisor [y] is not zero. *)
Fixpoint quotients (a b : list Q) : list Q :=
  match a, b with
  | x :: a', y :: b' =>
      if Qeq_bool y 0 then quotients a' b' else (x / y)%Q :: quotients a' b'
  | _, _ => []
  end.

(** The baseline series that a dict holds for the suffix group [S]: the
    inner list of a list of list under the key [baseline_S], when [S] is
    the suffix of that key. *)
Definition baseline_series (baseline : option string) (r : record)
    (S : string) : option (list Q) :=
  match dict_get (format_key baseline S) r with
  | Some (VList (EList inner :: _)) =>
      if String.eqb (data_type_of (format_key baseline S)) S
      then Some (map num_Q inner) else None
  | _ => None
  end.

(** The value of [key] after the two loops, as a function of the value
    before them and of the dict. *)
Definition normalized_value (baseline : option string) (r : record)
    (key : string) (v : value) : value :=
  match baseline with
  | None => conv v
  | Some _ =>
      match baseline_series baseline r (data_type_of key), conv v with
      | Some b, VArray dt a =>
          if Nat.eqb (length a) (length b)
          then VArray float64 (quotients a b) else VArray dt a
      | _, v' => v'
      end
  end.

(** The dict with each value normalized. *)
Definition normalized_record (baseline : option string) (r : record)
    : record :=
  map (fun kv => (fst kv, normalized_value baseline r (fst kv) (snd kv))) r.

(** [aggregate_normalize_data] without a heap: each record is normalized
    by itself, the first failure is raised, and the normalized records are
    aggregated. *)
Fixpoint normalize_records (baseline : option string) (rs : list record)
    : result (list record) :=
  match rs with
  | [] => Ok []
  | r :: rs' =>
      match normalize_data_point baseline r with
      | (Ok _, r') => rs'' ← normalize_records baseline rs'; Ok (r' :: rs'')
      | (Raise e, _) => Raise e
      end
  end.

(** A value and what normalization can make of it: itself, or an array
    in the place of an array or of a list of list. *)
Definition shape_rel (v v' : value) : Prop :=
  v' = v
  \/ (exists dt a, v' = VArray dt a)
     /\ match v with
        | VArray _ _ => True
        | VList (EList _ :: _) => True
        | _ => False
        end.

(** Two dicts with the same keys in the same order and values of the
    same shape. *)
Definition rec_shape (r r' : record) : Prop :=
  dict_keys r = dict_keys r'
  /\ forall k, option_Forall2 shape_rel (dict_get k r) (dict_get k r').

(** Two dicts of pools with the same keys in the same order, whose pools
    are numeric together. *)
Definition sim (rd rd' : dict (list pelem)) : Prop :=
  Forall2 (fun kp kp' => fst kp = fst kp'
                         /\ (numeric (snd kp) <-> numeric (snd kp'))) rd rd'.

(** A pool of numbers that are all equal to one. *)
Definition all_ones (p : list pelem) : Prop :=
  Forall (fun e => exists q, e = PNum q /\ (q == 1)%Q) p.

(* ===================================================================== *)
(** ** Properties                                                         *)
(* ===================================================================== *)

Section Dict.
Context {V : Type}.
Implicit Types (d : dict V) (k : string) (v : V).

Lemma dict_get_set_eq k v d : dict_get k (dict_set k v d) = Some v.
Proof.
  induction d as [|[k' v'] d IH]; simpl.
  - now rewrite String.eqb_refl.
  - destruct (String.eqb_spec k' k) as [->|Hne]; simpl.
    + now rewrite String.eqb_refl.
    + destruct (String.eqb_spec k' k); [contradiction|exact IH].
Qed.

Lemma dict_get_set_ne k k' v d :
  k <> k' -> dict_get k' (dict_set k v d) = dict_get k' d.
Proof.
  intros Hne. induction d as [|[k0 v0] d IH]; simpl.
  - destruct (String.eqb_spec k k'); [contradiction|reflexivity].
  - destruct (String.eqb_spec k0 k) as [->|Hk0]; simpl.
    + destruct (String.eqb_spec k k'); [contradiction|reflexivity].
    + now rewrite IH.
Qed.

Lemma dict_get_set k k' v d :
  dict_get k' (dict_set k v d)
  = if String.eqb k k' then Some v else dict_get k' d.
Proof.
  destruct (String.eqb_spec k k') as [->|Hne].
  - apply dict_get_set_eq.
  - now apply dict_get_set_ne.
Qed.

Lemma dict_keys_set_mem k v v0 d :
  dict_get k d = Some v0 -> dict_keys (dict_set k v d) = dict_keys d.
Proof.
  induction d as [|[k' v'] d IH]; simpl; [discriminate|].
  destruct (String.eqb_spec k' k) as [->|Hne]; simpl; [reflexivity|].
  intros H. now rewrite IH.
Qed.

Lemma dict_get_In k d : dict_get k d <> None <-> In k (dict_keys d).
Proof.
  induction d as [|[k' v'] d IH]; simpl; [tauto|].
  destruct (String.eqb_spec k' k) as [->|Hne].
  - split; [now left|discriminate].
  - rewrite IH. split; [now right|]. intros [H|H]; [contradiction|exact H].
Qed.
End Dict.

(* --------------------------------------------------------------------- *)
(** *** The scenario of plain aggregation                                 *)

Lemma sqrt_Q2R_1 : sqrt (Q2R 1) = 1%R.
Proof.
  replace (Q2R 1) with 1%R by (unfold Q2R; simpl; lra).
  apply sqrt_1.
Qed.

Lemma sqrt_Q2R_100 : sqrt (Q2R 100) = 10%R.
Proof.
  replace (Q2R 100) with (10 * 10)%R by (unfold Q2R; simpl; lra).
  apply sqrt_square; lra.
Qed.

(** C1, as the code has it: on the scenario, plain aggregation returns
    [a: (2.0, 1.0)] and [a_b: (20.0, 10.0)]; the pool of [a_b] is
    [[10, 30]], the first elements of the two lists. *)
Theorem C1_scenario_aggregate :
  aggregate_data scenario
  = Ok [("a", (fin 2, sqrt_fin 1)); ("a_b", (fin 20, sqrt_fin 100))]
  /\ npfloat_R (fin 2) = Some 2%R
  /\ npfloat_R (sqrt_fin 1) = Some 1%R
  /\ npfloat_R (fin 20) = Some 20%R
  /\ npfloat_R (sqrt_fin 100) = Some 10%R.
Proof.
  split; [vm_compute; reflexivity|].
  simpl. rewrite sqrt_Q2R_1, sqrt_Q2R_100.
  repeat split; f_equal; unfold Q2R; simpl; lra.
Qed.

(** C1 fails as stated: the standard deviation of [a_b] that the code
    returns is not approximately 8.16. *)
Lemma C1_scenario_std_not_8_16 :
  ~ (exists m s x,
        aggregate_data scenario = Ok m
        /\ dict_get "a_b" m = Some (fin 20, s)
        /\ npfloat_R s = Some x
        /\ approx_8_16 x).
Proof.
  intros (m & s & x & Hm & Hget & Hs & Hx).
  vm_compute in Hm. injection Hm as <-.
  simpl in Hget. injection Hget as <-.
  simpl in Hs. rewrite sqrt_Q2R_100 in Hs. injection Hs as <-.
  unfold approx_8_16 in Hx. lra.
Qed.

(* --------------------------------------------------------------------- *)
(** *** Zero filtering                                                    *)

(** C5, as the code has it: with baseline series [[0,2,4]] and metric
    series [[10,20,30]] the mask drops index 0 of both, and the metric
    becomes [[20/2, 30/4] = [10.0, 7.5]]. *)
Theorem C5_zero_filter :
  exists r a,
    normalize_data_point (Some "b") zero_filter_point = (Ok tt, r)
    /\ dict_get "m_r" r = Some (VArray float64 a)
    /\ Forall2 Qeq a [10; 7.5]%Q.
Proof.
  eexists _, _. split; [vm_compute; reflexivity|].
  split; [reflexivity|].
  repeat constructor.
Qed.

(** C5 fails as stated: the normalized series is not [[5.0, 7.5]]. *)
Lemma C5_zero_filter_not_5 :
  ~ (exists r dt a,
        normalize_data_point (Some "b") zero_filter_point = (Ok tt, r)
        /\ dict_get "m_r" r = Some (VArray dt a)
        /\ Forall2 Qeq a [5; 7.5]%Q).
Proof.
  intros (r & dt & a & Hrun & Hget & Ha).
  vm_compute in Hrun. injection Hrun as <-.
  vm_compute in Hget. injection Hget as <- <-.
  inversion Ha as [|? ? ? ? H _]; subst. vm_compute in H. discriminate.
Qed.

(* --------------------------------------------------------------------- *)
(** *** Pools                                                             *)

Lemma init_pool_get k k' (rd : dict (list pelem)) :
  dict_get k' (init_pool k rd)
  = if String.eqb k k'
    then Some (default [] (dict_get k rd))
    else dict_get k' rd.
Proof.
  unfold init_pool, dict_mem.
  destruct (dict_get k rd) as [p|] eqn:Hk.
  - destruct (String.eqb_spec k k') as [<-|]; [now rewrite Hk|reflexivity].
  - rewrite dict_get_set. now destruct (String.eqb k k').
Qed.

Lemma add_obs_get k k' obs (rd : dict (list pelem)) :
  dict_get k' (add_obs k obs rd)
  = if String.eqb k k'
    then Some (default [] (dict_get k rd) ++ obs)
    else dict_get k' rd.
Proof.
  unfold add_obs, extend_pool.
  pose proof (init_pool_get k k rd) as Hk. rewrite String.eqb_refl in Hk.
  rewrite Hk, dict_get_set, init_pool_get.
  now destruct (String.eqb k k').
Qed.

Lemma bind_Ok_inv {A B : Type} (r : result A) (f : A -> result B) (b : B) :
  (r ≫= f) = Ok b -> exists a, r = Ok a /\ f a = Ok b.
Proof. destruct r as [a|e]; simpl; [eauto|discriminate]. Qed.

Lemma aggregate_value_inv k v rd rd' :
  aggregate_value k v rd = Ok rd' ->
  (skipped v /\ rd' = rd) \/ (~ skipped v /\ exists obs, rd' = add_obs k obs rd).
Proof.
  destruct v as [[n|s| |b]|[|[[n|s| |b]|inner] l]|dt a|]; simpl; intros H;
    try discriminate; try (injection H as <-);
    try (left; split; [exact I|reflexivity]);
    try (right; split; [tauto|eexists; reflexivity]).
Qed.

Lemma aggregate_value_absent k k' v rd rd' :
  aggregate_value k' v rd = Ok rd' ->
  dict_get k rd' = None <-> dict_get k rd = None /\ (k' = k -> skipped v).
Proof.
  intros H. apply aggregate_value_inv in H as [[Hs ->]|[Hs [obs ->]]].
  - split; [intros H; split; [exact H|intros _; exact Hs]|now intros [H _]].
  - rewrite add_obs_get. destruct (String.eqb_spec k' k) as [->|Hne].
    + split; [discriminate|]. intros [_ Hk]. now elim Hs; apply Hk.
    + split; [intros H; split; [exact H|intros Hk; contradiction]
             |now intros [H _]].
Qed.

Lemma aggregate_keys_absent (l : record) k ks rd rd' :
  for_each ks (fun k rd => v ← getitem l k; aggregate_value k v rd) rd
  = Ok rd' ->
  dict_get k rd' = None
  <-> dict_get k rd = None
      /\ (In k ks -> forall v, dict_get k l = Some v -> skipped v).
Proof.
  revert rd. induction ks as [|k0 ks IH]; simpl; intros rd H.
  - injection H as <-. tauto.
  - apply bind_Ok_inv in H as (rd1 & H1 & H2).
    apply bind_Ok_inv in H1 as (v0 & Hv0 & H1).
    unfold getitem in Hv0. destruct (dict_get k0 l) as [v0'|] eqn:Hk0;
      [injection Hv0 as ->|discriminate].
    rewrite (IH _ H2), (aggregate_value_absent k _ _ _ _ H1).
    split.
    + intros [[Hrd Hk] Hks]. split; [exact Hrd|].
      intros [->|Hin] v Hv; [|now apply Hks].
      rewrite Hk0 in Hv. injection Hv as <-. now apply Hk.
    + intros [Hrd Hks]. repeat split; [exact Hrd| |now auto].
      intros ->. apply Hks; [now left|exact Hk0].
Qed.

Lemma aggregate_record_absent (l : record) k rd rd' :
  aggregate_record l rd = Ok rd' ->
  dict_get k rd' = None
  <-> dict_get k rd = None /\ (forall v, dict_get k l = Some v -> skipped v).
Proof.
  intros H. rewrite (aggregate_keys_absent _ k _ _ _ H).
  split; intros [Hrd Hk]; (split; [exact Hrd|]); [|now auto].
  intros v Hv. apply Hk; [|exact Hv].
  apply dict_get_In. now rewrite Hv.
Qed.

Lemma aggregate_results_absent (results : list record) k rd rd' :
  for_each results aggregate_record rd = Ok rd' ->
  dict_get k rd' = None
  <-> dict_get k rd = None
      /\ (forall l v, In l results -> dict_get k l = Some v -> skipped v).
Proof.
  revert rd. induction results as [|l0 results IH]; simpl; intros rd H.
  - injection H as <-. split; [now intros ->|tauto].
  - apply bind_Ok_inv in H as (rd1 & H1 & H2).
    rewrite (IH _ H2), (aggregate_record_absent _ k _ _ H1).
    split.
    + intros [[Hrd Hl0] Hres]. split; [exact Hrd|].
      intros l v [<-|Hin] Hv; [now apply Hl0|now apply (Hres l)].
    + intros [Hrd Hres]. repeat split; [exact Hrd| |]; intros; eapply Hres; eauto.
Qed.

Lemma mean_std_absent rd m k :
  mean_std rd = Ok m -> dict_get k m = None <-> dict_get k rd = None.
Proof.
  revert m. induction rd as [|[i p] rd IH]; simpl; intros m H.
  - now injection H as <-.
  - apply bind_Ok_inv in H as (mu & _ & H).
    apply bind_Ok_inv in H as (sd & _ & H).
    apply bind_Ok_inv in H as (m' & Hm' & H).
    injection H as <-. simpl.
    destruct (String.eqb i k); [split; discriminate|now apply IH].
Qed.

(** C6, as the code has it: a metric name is absent from the returned
    mapping if and only if every occurrence of it is passed over by the
    dispatch, its type being none of [int], [float], [list] and
    [np.ndarray] (a string, [None], a [bool], a dict, a numpy scalar, ...).
    A name whose pool was created, even when the pool stays empty, is
    present. *)
Theorem C6_absent_iff_skipped (results : list record) (k : string)
    (m : dict (npfloat * npfloat)) (Hm : aggregate_data results = Ok m) :
  dict_get k m = None
  <-> (forall l v, In l results -> dict_get k l = Some v -> skipped v).
Proof.
  unfold aggregate_data in Hm.
  apply bind_Ok_inv in Hm as (rd & Hrd & Hm).
  rewrite (mean_std_absent _ _ k Hm), (aggregate_results_absent _ k _ _ Hrd).
  simpl. tauto.
Qed.

Lemma C6_absent_iff_skipped_witness :
  aggregate_data other_results = Ok [("b", (fin 1, sqrt_fin 0))]
  /\ (dict_get "a" [("b", (fin 1, sqrt_fin 0))] = None
      <-> (forall l v, In l other_results -> dict_get "a" l = Some v ->
                       skipped v)).
Proof.
  split; [vm_compute; reflexivity|].
  apply (C6_absent_iff_skipped other_results "a").
  vm_compute; reflexivity.
Defined.

(** C6 fails as stated: a metric whose only occurrence is an empty numeric
    array has an empty pool and is present, with the pair (nan, nan). *)
Lemma C6_empty_pool_is_present :
  aggregate_data empty_array_results = Ok [("a", (nan, nan))]
  /\ ~ (forall m, aggregate_data empty_array_results = Ok m ->
                  dict_get "a" m = None).
Proof.
  split; [vm_compute; reflexivity|].
  intros H. specialize (H _ eq_refl). vm_compute in H. discriminate.
Qed.

(* --------------------------------------------------------------------- *)
(** *** The loops over one data point                                     *)

Ltac st_unfold :=
  unfold mbind, ST_bind, mret, ST_ret, lift, dp_get, dp_set, dp_keys in *.

Lemma first_loop_body_run baseline key avg (r : record) v :
  dict_get key r = Some v ->
  first_loop_body baseline key avg r
  = match is_list_of_list v with
    | Raise e => (Raise e, r)
    | Ok None => (Ok avg, r)
    | Ok (Some inner) =>
        (Ok (if negb (dict_mem (data_type_of key) avg)
                && String.eqb key (format_key baseline (data_type_of key))
             then dict_set (data_type_of key)
                    (SerArray (np_dtype inner) (map num_Q inner)) avg
             else avg),
         dict_set key (conv v) r)
    end.
Proof.
  intros Hv. unfold first_loop_body. st_unfold. unfold getitem. rewrite Hv.
  destruct v as [s|[|[s|inner] l]|dt a|]; simpl; try reflexivity.
  now destruct (_ && _).
Qed.

Lemma conv_idem v : conv (conv v) = conv v.
Proof. now destruct v as [s|[|[s|inner] l]|dt a|]. Qed.

Lemma conv_agg_eq v : agg_eq v (conv v).
Proof.
  intros k rd. destruct v as [s|[|[s|inner] l]|dt a|]; simpl; try reflexivity.
  now rewrite map_map.
Qed.

Lemma is_list_of_list_conv v :
  match is_list_of_list v with
  | Raise e => e = IndexError /\ v = VList []
  | Ok None => conv v = v
  | Ok (Some inner) => conv v = VArray (np_dtype inner) (map num_Q inner)
  end.
Proof. now destruct v as [s|[|[s|inner] l]|dt a|]. Qed.

Lemma for_eachS_cons {S A B : Type} (x : A) xs (body : A -> B -> ST S B)
    acc s :
  for_eachS (x :: xs) body acc s
  = match body x acc s with
    | (Ok acc', s') => for_eachS xs body acc' s'
    | (Raise e, s') => (Raise e, s')
    end.
Proof. reflexivity. Qed.

Lemma conv_not_list_of_list v inner rest :
  conv v = VList (EList inner :: rest) -> v = VList (EList inner :: rest).
Proof. now destruct v as [s|[|[s|inner'] l]|dt a|]. Qed.

Lemma conv_empty_list v : conv v = VList [] -> v = VList [].
Proof. now destruct v as [s|[|[s|inner'] l]|dt a|]. Qed.

Lemma first_loop_spec baseline ks :
  forall avg (r : record) res r',
    (forall k, In k ks -> dict_get k r <> None) ->
    for_eachS ks (first_loop_body baseline) avg r = (res, r') ->
    dict_keys r' = dict_keys r
    /\ (forall k, dict_get k r' = dict_get k r
                  \/ dict_get k r' = conv <$> dict_get k r)
    /\ match res with
       | Ok avg' =>
           (forall k, In k ks -> dict_get k r' = conv <$> dict_get k r)
           /\ (forall S s, dict_get S avg' = Some s ->
                 dict_get S avg = Some s
                 \/ exists inner rest,
                      data_type_of (format_key baseline S) = S
                      /\ dict_get (format_key baseline S) r
                         = Some (VList (EList inner :: rest))
                      /\ s = SerArray (np_dtype inner) (map num_Q inner))
       | Raise e =>
           e = IndexError
           /\ exists k, In k ks /\ dict_get k r = Some (VList [])
       end.
Proof.
  induction ks as [|k0 ks IH]; intros avg r res r' Hks Hrun.
  - simpl in Hrun. injection Hrun as <- <-.
    repeat split; [now left|intros k []|now left].
  - rewrite for_eachS_cons in Hrun.
    destruct (dict_get k0 r) as [v|] eqn:Hk0;
      [|now elim (Hks k0 (or_introl eq_refl))].
    rewrite (first_loop_body_run _ _ _ _ _ Hk0) in Hrun.
    pose proof (is_list_of_list_conv v) as Hconv.
    destruct (is_list_of_list v) as [[inner|]|e] eqn:Hll.
    + (* a list of list: converted *)
      set (avg1 := if _ : bool then _ else avg) in Hrun.
      assert (Hks1 : forall k, In k ks -> dict_get k (dict_set k0 (conv v) r) <> None).
      { intros k Hin. rewrite dict_get_set.
        destruct (String.eqb k0 k); [discriminate|apply Hks; now right]. }
      destruct (IH _ _ _ _ Hks1 Hrun) as (Hkeys & Hany & Hres).
      assert (Hget1 : forall k, dict_get k (dict_set k0 (conv v) r)
                                = dict_get k r
                                \/ dict_get k (dict_set k0 (conv v) r)
                                   = conv <$> dict_get k r).
      { intros k. rewrite dict_get_set.
        destruct (String.eqb_spec k0 k) as [<-|]; [|now left].
        right. now rewrite Hk0. }
      split; [|split].
      * rewrite Hkeys. now apply dict_keys_set_mem with (v0 := v).
      * intros k. destruct (Hany k) as [H|H], (Hget1 k) as [H1|H1];
          rewrite H, H1; auto.
        right. destruct (dict_get k r); simpl; [|reflexivity].
        now rewrite conv_idem.
      * destruct res as [avg'|e].
        -- destruct Hres as [Hdone Havg]. split.
           ++ intros k [<-|Hin].
              ** destruct (Hany k0) as [H|H]; rewrite H, dict_get_set_eq;
                   rewrite Hk0; simpl; [reflexivity|now rewrite conv_idem].
              ** rewrite (Hdone k Hin). destruct (Hget1 k) as [H1|H1];
                   rewrite H1; [reflexivity|].
                 destruct (dict_get k r); simpl; [|reflexivity].
                 now rewrite conv_idem.
           ++ intros S s Hs.
              destruct (Havg S s Hs) as [H|(inn & rest & HS & H & ->)].
              ** subst avg1.
                 destruct (negb _ && _) eqn:Hcond; [|now left].
                 rewrite dict_get_set in H.
                 destruct (String.eqb_spec (data_type_of k0) S) as [<-|];
                   [|now left].
                 injection H as <-. right.
                 apply andb_prop in Hcond as [_ Hkey].
                 apply String.eqb_eq in Hkey. rewrite <- Hkey, Hk0.
                 destruct v as [sc|[|[sc|inner'] l]|dt a|]; try discriminate.
                 injection Hll as <-. now eexists _, _.
              ** right. exists inn, rest. split; [exact HS|].
                 split; [|reflexivity].
                 destruct (Hget1 (format_key baseline S)) as [H1|H1];
                   rewrite H1 in H; [exact H|].
                 destruct (dict_get (format_key baseline S) r) as [w|];
                   [|discriminate].
                 simpl in H. injection H as H.
                 now apply conv_not_list_of_list in H as ->.
        -- destruct Hres as [-> (k & Hin & Hk)]. split; [reflexivity|].
           exists k. split; [now right|].
           destruct (Hget1 k) as [H1|H1]; rewrite H1 in Hk; [exact Hk|].
           destruct (dict_get k r) as [w|]; [|discriminate].
           simpl in Hk. injection Hk as Hk.
           now apply conv_empty_list in Hk as ->.
    + (* anything else: continue *)
      assert (Hks1 : forall k, In k ks -> dict_get k r <> None)
        by (intros; apply Hks; now right).
      destruct (IH _ _ _ _ Hks1 Hrun) as (Hkeys & Hany & Hres).
      split; [exact Hkeys|]. split; [exact Hany|].
      destruct res as [avg'|e].
      * destruct Hres as [Hdone Havg]. split; [|exact Havg].
        intros k [<-|Hin]; [|now apply Hdone].
        destruct (Hany k0) as [H|H]; rewrite H; [|reflexivity].
        rewrite Hk0. simpl. now rewrite Hconv.
      * destruct Hres as [-> (k & Hin & Hk)]. split; [reflexivity|].
        exists k. split; [now right|exact Hk].
    + (* the empty list: v[0] raises *)
      destruct Hconv as [-> ->]. injection Hrun as <- <-.
      repeat split; [now left|].
      exists k0. split; [now left|exact Hk0].
Qed.

Lemma second_loop_body_run avg key (r : record) v :
  dict_get key r = Some v ->
  second_loop_body avg key tt r
  = match dict_get (data_type_of key) avg with
    | Some (SerArray _ b) =>
        (Ok tt, match divide_masked v b with
                | Ok v' => dict_set key v' r
                | Raise _ => r
                end)
    | Some (SerScalar d) =>
        match idiv_first v d with
        | Ok v' => (Ok tt, dict_set key v' r)
        | Raise e => (Raise e, r)
        end
    | None => (Ok tt, r)
    end.
Proof.
  intros Hv. unfold second_loop_body.
  destruct (dict_get (data_type_of key) avg) as [[dt b|d]|]; [| |reflexivity];
    st_unfold; unfold getitem; rewrite Hv.
  - now destruct (divide_masked v b).
  - now destruct (idiv_first v d).
Qed.

Section SecondLoop.
Variable P : string -> value -> value -> Prop.
Hypothesis P_refl : forall k v, P k v v.
Hypothesis P_trans : forall k u v w, P k u v -> P k v w -> P k u w.
Variable avg : dict series.
Hypothesis avg_arrays :
  forall S s, dict_get S avg = Some s -> is_array_series s.
Hypothesis P_divide :
  forall k dt b v v',
    dict_get (data_type_of k) avg = Some (SerArray dt b) ->
    divide_masked v b = Ok v' -> P k v v'.

Lemma second_loop_spec_keyed ks :
  forall (r : record) res r',
    (forall k, In k ks -> dict_get k r <> None) ->
    for_eachS ks (second_loop_body avg) tt r = (res, r') ->
    res = Ok tt
    /\ dict_keys r' = dict_keys r
    /\ forall k, option_Forall2 (P k) (dict_get k r) (dict_get k r').
Proof.
  induction ks as [|k0 ks IH]; intros r res r' Hks Hrun.
  - simpl in Hrun. injection Hrun as <- <-. repeat split.
    intros k. destruct (dict_get k r); constructor. apply P_refl.
  - rewrite for_eachS_cons in Hrun.
    destruct (dict_get k0 r) as [v|] eqn:Hk0;
      [|now elim (Hks k0 (or_introl eq_refl))].
    rewrite (second_loop_body_run _ _ _ _ Hk0) in Hrun.
    assert (Hstep : exists r1,
               for_eachS ks (second_loop_body avg) tt r1 = (res, r')
               /\ dict_keys r1 = dict_keys r
               /\ forall k, option_Forall2 (P k) (dict_get k r) (dict_get k r1)).
    { assert (Hsame : forall k,
                 option_Forall2 (P k) (dict_get k r) (dict_get k r))
        by (intros k; destruct (dict_get k r); constructor; apply P_refl).
      destruct (dict_get (data_type_of k0) avg) as [[dt b|d]|] eqn:Havg.
      - destruct (divide_masked v b) as [v'|e] eqn:Hdiv.
        + exists (dict_set k0 v' r). split; [exact Hrun|]. split.
          * now apply dict_keys_set_mem with (v0 := v).
          * intros k. rewrite dict_get_set.
            destruct (String.eqb_spec k0 k) as [<-|]; [|apply Hsame].
            rewrite Hk0. constructor. eapply P_divide; eauto.
        + exists r. auto.
      - now apply avg_arrays in Havg.
      - exists r. auto. }
    destruct Hstep as (r1 & Hrun1 & Hkeys1 & Hrel1).
    assert (Hks1 : forall k, In k ks -> dict_get k r1 <> None).
    { intros k Hin. apply dict_get_In. rewrite Hkeys1.
      apply dict_get_In, Hks. now right. }
    destruct (IH _ _ _ Hks1 Hrun1) as (-> & Hkeys & Hrel).
    split; [reflexivity|]. split; [congruence|].
    intros k. specialize (Hrel1 k). specialize (Hrel k).
    destruct Hrel1; inversion Hrel; subst; constructor. eauto.
Qed.
End SecondLoop.

Section SecondLoopAnyKey.
Variable P : value -> value -> Prop.
Hypothesis P_refl : forall v, P v v.
Hypothesis P_trans : forall u v w, P u v -> P v w -> P u w.
Variable avg : dict series.
Hypothesis avg_arrays :
  forall S s, dict_get S avg = Some s -> is_array_series s.
Hypothesis P_divide :
  forall S dt b v v',
    dict_get S avg = Some (SerArray dt b) -> divide_masked v b = Ok v' -> P v v'.

Lemma second_loop_spec ks :
  forall (r : record) res r',
    (forall k, In k ks -> dict_get k r <> None) ->
    for_eachS ks (second_loop_body avg) tt r = (res, r') ->
    res = Ok tt
    /\ dict_keys r' = dict_keys r
    /\ forall k, option_Forall2 P (dict_get k r) (dict_get k r').
Proof.
  intros r res r'.
  apply (second_loop_spec_keyed (fun _ => P)).
  - intros k. apply P_refl.
  - intros k. apply P_trans.
  - exact avg_arrays.
  - intros k dt b v v'. apply P_divide.
Qed.
End SecondLoopAnyKey.

Lemma normalize_data_point_run baseline (r : record) :
  normalize_data_point baseline r
  = match for_eachS (dict_keys r) (first_loop_body baseline) [] r with
    | (Ok avg, r1) =>
        match baseline with
        | Some _ => for_eachS (dict_keys r1) (second_loop_body avg) tt r1
        | None => (Ok tt, r1)
        end
    | (Raise e, r1) => (Raise e, r1)
    end.
Proof.
  unfold normalize_data_point. st_unfold.
  destruct (for_eachS _ _ _ r) as [[avg|e] r1]; [|reflexivity].
  now destruct baseline.
Qed.

Lemma keys_present {V : Type} (d : dict V) k :
  In k (dict_keys d) -> dict_get k d <> None.
Proof. apply dict_get_In. Qed.

Lemma divide_masked_array v b v' :
  divide_masked v b = Ok v' ->
  exists dt a a', v = VArray dt a /\ v' = VArray float64 a'.
Proof.
  unfold divide_masked. intros H.
  apply bind_Ok_inv in H as (xs & Hxs & H).
  apply bind_Ok_inv in H as (qs & _ & H). injection H as <-.
  destruct v as [s|l|dt a|]; try discriminate. now eexists _, _, _.
Qed.

Lemma Qdiv_1_r_eq (x : Q) : (x / 1)%Q = x.
Proof.
  destruct x as [n d]. unfold Qdiv, Qmult, Qinv. simpl.
  now rewrite Z.mul_1_r, Pos.mul_1_r.
Qed.

Lemma select_ones {A : Type} (a : list A) (b : list Q) :
  Forall (fun x => x = 1%Q) b -> length a = length b ->
  select a (nonzero_mask b) = a.
Proof.
  intros Hb. revert a. induction Hb as [|x b -> _ IH]; intros [|y a] Hlen;
    try discriminate; [reflexivity|].
  simpl. f_equal. apply IH. now injection Hlen.
Qed.

Lemma true_divide_ones (a b : list Q) :
  Forall (fun x => x = 1%Q) b -> length a = length b ->
  true_divide a b = Ok a.
Proof.
  intros Hb. revert a. induction Hb as [|x b -> _ IH]; intros [|y a] Hlen;
    try discriminate; [reflexivity|].
  simpl. rewrite IH by now injection Hlen. simpl. now rewrite Qdiv_1_r_eq.
Qed.

Lemma divide_masked_ones dt a b v' :
  Forall (fun x => x = 1%Q) b ->
  divide_masked (VArray dt a) b = Ok v' -> v' = VArray float64 a.
Proof.
  intros Hb. unfold divide_masked, getitem_mask.
  replace (length (nonzero_mask b)) with (length b)
    by (unfold nonzero_mask; now rewrite length_map).
  destruct (Nat.eqb_spec (length a) (length b)) as [Hlen|]; [|discriminate].
  simpl. rewrite (select_ones a b Hb Hlen).
  rewrite (select_ones b b Hb eq_refl).
  rewrite (true_divide_ones a b Hb Hlen). simpl. now intros [= <-].
Qed.

Lemma agg_eq_refl v : agg_eq v v.
Proof. now intros k rd. Qed.

Lemma agg_eq_trans u v w : agg_eq u v -> agg_eq v w -> agg_eq u w.
Proof. intros H1 H2 k rd. now rewrite H1. Qed.

Lemma agg_eq_array dt dt' a : agg_eq (VArray dt a) (VArray dt' a).
Proof. now intros k rd. Qed.

Lemma first_loop_all_keys baseline (r : record) avg r1 :
  for_eachS (dict_keys r) (first_loop_body baseline) [] r = (Ok avg, r1) ->
  dict_keys r1 = dict_keys r
  /\ (forall k, dict_get k r1 = conv <$> dict_get k r)
  /\ (forall S s, dict_get S avg = Some s ->
        exists inner rest,
          data_type_of (format_key baseline S) = S
          /\ dict_get (format_key baseline S) r
             = Some (VList (EList inner :: rest))
          /\ s = SerArray (np_dtype inner) (map num_Q inner)).
Proof.
  intros Hrun.
  destruct (first_loop_spec _ _ _ _ _ _ (keys_present r) Hrun)
    as (Hkeys & Hany & Hdone & Havg).
  split; [exact Hkeys|]. split.
  - intros k. destruct (dict_get k r) as [v|] eqn:Hk.
    + rewrite (Hdone k), Hk; [reflexivity|].
      apply dict_get_In. now rewrite Hk.
    + destruct (Hany k) as [H|H]; now rewrite H, Hk.
  - intros S s Hs. destruct (Havg S s Hs) as [H|H]; [discriminate|exact H].
Qed.

Lemma normalize_rec_eq baseline (r : record) res r' :
  (baseline <> None -> ones_baseline baseline r) ->
  normalize_data_point baseline r = (res, r') ->
  match res with
  | Ok _ => rec_eq r r' /\ (forall k v, dict_get k r' = Some v -> conv v = v)
  | Raise _ => exists k, dict_get k r = Some (VList [])
  end.
Proof.
  intros Hones. rewrite normalize_data_point_run.
  destruct (for_eachS _ _ _ r) as [[avg|e] r1] eqn:Hfirst.
  - apply first_loop_all_keys in Hfirst as (Hkeys1 & Hget1 & Havg).
    assert (Hrel1 : forall k, option_Forall2 agg_eq (dict_get k r) (dict_get k r1)).
    { intros k. rewrite Hget1. destruct (dict_get k r); constructor.
      apply conv_agg_eq. }
    assert (Hconv1 : forall k v, dict_get k r1 = Some v -> conv v = v).
    { intros k v. rewrite Hget1. destruct (dict_get k r); [|discriminate].
      simpl. intros [= <-]. apply conv_idem. }
    destruct baseline as [b|].
    + intros Hsecond.
      apply (second_loop_spec
               (fun v v' => agg_eq v v' /\ (conv v = v -> conv v' = v')))
        in Hsecond as (-> & Hkeys & Hrel).
      * split; [split|].
        -- congruence.
        -- intros k. specialize (Hrel1 k). specialize (Hrel k).
           destruct Hrel1; inversion Hrel as [? ? [Hagg _]|]; subst;
             constructor. eapply agg_eq_trans; eauto.
        -- intros k v Hv. specialize (Hrel k). rewrite Hv in Hrel.
           inversion Hrel as [w ? [_ Hc] Hw|]; subst. symmetry in Hw.
           eauto.
      * intros v. split; [apply agg_eq_refl|auto].
      * intros u v w [H1 H1'] [H2 H2']. split; [|auto].
        eapply agg_eq_trans; eauto.
      * intros S s Hs. now destruct (Havg S s Hs) as (? & ? & _ & _ & ->).
      * intros S dt bb v v' Hs Hdiv.
        destruct (Havg S _ Hs) as (inner & rest & HS & Hbase & Heq).
        injection Heq as -> ->.
        destruct (divide_masked_array _ _ _ Hdiv) as (dt' & a & a' & -> & _).
        apply divide_masked_ones in Hdiv as ->.
        -- split; [apply agg_eq_array|reflexivity].
        -- apply Forall_map.
           exact (Hones ltac:(discriminate) S inner rest HS Hbase).
      * intros k Hin. now apply keys_present.
    + intros [= <- <-]. split; [split|]; auto.
  - intros [= <- <-].
    destruct (first_loop_spec _ _ _ _ _ _ (keys_present r) Hfirst)
      as (_ & _ & _ & k & _ & Hk).
    now exists k.
Qed.

(* --------------------------------------------------------------------- *)
(** *** Dicts that aggregate alike                                        *)

Lemma for_each_ext {A S : Type} (xs : list A) (f g : A -> S -> result S) s :
  (forall x s, In x xs -> f x s = g x s) ->
  for_each xs f s = for_each xs g s.
Proof.
  revert s. induction xs as [|x xs IH]; intros s H; [reflexivity|].
  simpl. rewrite (H x s) by now left.
  destruct (g x s) as [s'|e]; simpl; [|reflexivity].
  apply IH. intros; apply H; now right.
Qed.

Lemma for_each_raises {A S : Type} (xs : list A) (body : A -> S -> result S)
    x :
  In x xs -> (forall s, exists e, body x s = Raise e) ->
  forall s, exists e, for_each xs body s = Raise e.
Proof.
  intros Hin Hx. induction xs as [|y xs IH]; [destruct Hin|].
  intros s. simpl. destruct Hin as [->|Hin].
  - destruct (Hx s) as [e ->]. now exists e.
  - destruct (body y s) as [s'|e]; simpl; [now apply IH|now exists e].
Qed.

Lemma rec_eq_refl r : rec_eq r r.
Proof.
  split; [reflexivity|]. intros k. destruct (dict_get k r); constructor.
  apply agg_eq_refl.
Qed.

Lemma rec_eq_trans r1 r2 r3 : rec_eq r1 r2 -> rec_eq r2 r3 -> rec_eq r1 r3.
Proof.
  intros [Hk1 Hv1] [Hk2 Hv2]. split; [congruence|].
  intros k. specialize (Hv1 k). specialize (Hv2 k).
  destruct Hv1; inversion Hv2; subst; constructor.
  eapply agg_eq_trans; eauto.
Qed.

Lemma rec_eq_aggregate_record r r' rd :
  rec_eq r r' -> aggregate_record r rd = aggregate_record r' rd.
Proof.
  intros [Hk Hv]. unfold aggregate_record. rewrite <- Hk.
  apply for_each_ext. intros k s _. unfold getitem.
  destruct (Hv k) as [v v' H|]; simpl; [apply H|reflexivity].
Qed.

Lemma aggregate_data_rec_eq rs rs' :
  Forall2 rec_eq rs rs' -> aggregate_data rs = aggregate_data rs'.
Proof.
  intros H. unfold aggregate_data. f_equal.
  generalize (@nil (string * list pelem)).
  induction H as [|r r' rs rs' Hr _ IH]; intros rd; [reflexivity|].
  simpl. rewrite (rec_eq_aggregate_record _ _ _ Hr).
  destruct (aggregate_record r' rd); simpl; [apply IH|reflexivity].
Qed.

Lemma aggregate_record_empty_list (r : record) k :
  dict_get k r = Some (VList []) ->
  forall rd, exists e, aggregate_record r rd = Raise e.
Proof.
  intros Hk. unfold aggregate_record.
  apply for_each_raises with (x := k).
  - apply dict_get_In. now rewrite Hk.
  - intros s. unfold getitem. rewrite Hk. now exists IndexError.
Qed.

Lemma aggregate_data_raises rs (r : record) :
  In r rs -> (forall rd, exists e, aggregate_record r rd = Raise e) ->
  exists e, aggregate_data rs = Raise e.
Proof.
  intros Hin Hr. unfold aggregate_data.
  destruct (for_each_raises rs aggregate_record r Hin Hr []) as [e ->].
  now exists e.
Qed.

(* --------------------------------------------------------------------- *)
(** *** The heap                                                          *)

Lemma kept_refl n h : kept n h h.
Proof. now split. Qed.

Lemma kept_trans n h1 h2 h3 : kept n h1 h2 -> kept n h2 h3 -> kept n h1 h3.
Proof.
  intros [Hl1 H1] [Hl2 H2]. split; [lia|].
  intros l Hl. now rewrite H2, H1.
Qed.

Lemma kept_app n h ext : n <= length h -> kept n h (h ++ ext).
Proof.
  intros Hn. split; [rewrite length_app; lia|].
  intros l Hl. apply lookup_app_l. lia.
Qed.

Lemma kept_insert n h l (r : record) : n <= l -> kept n h (<[l := r]> h).
Proof.
  intros Hn. split.
  - replace (length (<[l := r]> h)) with (length h); [lia|].
    symmetry. apply length_insert.
  - intros l' Hl'. apply list_lookup_insert_ne. lia.
Qed.

Lemma kept_prefix h h' : kept (length h) h h' -> exists ext, h' = h ++ ext.
Proof.
  intros [Hlen Hget]. exists (drop (length h) h').
  rewrite <- (take_drop (length h) h') at 1. f_equal.
  apply list_eq. intros l. destruct (decide (l < length h)) as [Hl|Hl].
  - rewrite lookup_take_lt by exact Hl. now apply Hget.
  - rewrite lookup_take_ge by lia. symmetry. apply lookup_ge_None. lia.
Qed.

(** Case analysis on the option that a hypothesis matches on. *)
Ltac case_option H r :=
  match type of H with
  | context [match ?x with Some _ => _ | None => _ end] => destruct x as [r|]
  end.

Lemma at_loc_run {A : Type} l (m : ST record A) h :
  at_loc l m h
  = match h !! l with
    | Some r => (fst (m r), <[l := snd (m r)]> h)
    | None => (Raise Dangling, h)
    end.
Proof.
  unfold at_loc. destruct (_ !! l) as [r|]; [|reflexivity].
  now destruct (m r).
Qed.

Lemma load_all_heap ls h : snd (load_all ls h) = h.
Proof.
  induction ls as [|l ls IH]; [reflexivity|].
  simpl. unfold mbind, ST_bind, load.
  destruct (_ !! l) as [r|]; [|reflexivity].
  destruct (load_all ls h) as [[rs|e] h'] eqn:Hrun; simpl in *; now subst.
Qed.

Lemma deepcopy_kept n results :
  forall memo h res h',
    n <= length h ->
    (forall l l', memo_get l memo = Some l' -> n <= l') ->
    deepcopy results memo h = (res, h') ->
    kept n h h'
    /\ match res with
       | Ok ls => Forall (fun l' => n <= l') ls
       | Raise _ => True
       end.
Proof.
  induction results as [|l results IH]; intros memo h res h' Hn Hmemo Hrun.
  - injection Hrun as <- <-. split; [apply kept_refl|constructor].
  - simpl in Hrun. destruct (memo_get l memo) as [l'|] eqn:Hl.
    + unfold mbind, ST_bind, mret, ST_ret in Hrun.
      destruct (deepcopy results memo h) as [[ls|e] h1] eqn:Hrest.
      * simpl in Hrun. injection Hrun as <- <-.
        destruct (IH _ _ _ _ Hn Hmemo Hrest) as [Hk Hls].
        split; [exact Hk|]. constructor; [now apply (Hmemo l)|exact Hls].
      * simpl in Hrun. injection Hrun as <- <-.
        now destruct (IH _ _ _ _ Hn Hmemo Hrest) as [Hk _].
    + unfold mbind, ST_bind, mret, ST_ret, load, alloc in Hrun.
      case_option Hrun r; simpl in Hrun;
        [|injection Hrun as <- <-; split; [apply kept_refl|exact I]].
      destruct (deepcopy results _ (h ++ [r])) as [[ls|e] h1] eqn:Hrest;
        simpl in Hrun; injection Hrun as <- <-;
        (apply IH in Hrest as [Hk Hls];
         [|rewrite length_app; lia
          |intros l0 l0'; simpl; destruct (Nat.eqb l l0);
           [intros [= <-]; lia|apply Hmemo]]);
        (split; [eapply kept_trans; [now apply kept_app|exact Hk]|]).
      * constructor; [exact Hn|exact Hls].
      * exact I.
Qed.

Lemma normalize_loop_kept n baseline ls :
  forall h res h',
    Forall (fun l' => n <= l') ls ->
    for_eachS ls
      (fun data_point _ => at_loc data_point (normalize_data_point baseline))
      tt h = (res, h') ->
    kept n h h'.
Proof.
  induction ls as [|l ls IH]; intros h res h' Hls Hrun.
  - injection Hrun as <- <-. apply kept_refl.
  - rewrite for_eachS_cons, at_loc_run in Hrun.
    inversion Hls as [|? ? Hl Hls']; subst.
    case_option Hrun r; simpl in Hrun;
      [|injection Hrun as <- <-; apply kept_refl].
    destruct (normalize_data_point baseline r) as [[[]|e] r']; simpl in Hrun.
    + eapply kept_trans; [exact (kept_insert n h l r' Hl)|].
      eapply IH; eauto.
    + injection Hrun as <- <-. exact (kept_insert n h l r' Hl).
Qed.

(** C4: the call leaves every dict that existed before it as it was: the
    heap after the call is the heap before it, followed by the dicts of
    the deep copy.  This holds when the call returns and when it raises. *)
Theorem C4_caller_collection_unchanged (results : list loc)
    (baseline : option string) (h : heap) :
  exists copies,
    snd (aggregate_normalize_data results baseline h) = h ++ copies.
Proof.
  apply kept_prefix. unfold aggregate_normalize_data, aggregate_data_at.
  unfold mbind, ST_bind, lift.
  destruct (deepcopy results [] h) as [[ls|e] h1] eqn:Hcopy;
    (apply (deepcopy_kept (length h)) in Hcopy as [Hk1 Hls];
     [|reflexivity|discriminate]); [|exact Hk1].
  destruct (for_eachS ls _ tt h1) as [[[]|e] h2] eqn:Hloop;
    apply (normalize_loop_kept (length h)) in Hloop; try exact Hls.
  - pose proof (load_all_heap ls h2) as Hload.
    destruct (load_all ls h2) as [[rs|e] h3]; simpl in *; subst h3;
      eapply kept_trans; eauto.
  - eapply kept_trans; eauto.
Qed.

(* --------------------------------------------------------------------- *)
(** *** The loop over the copy                                            *)

Lemma no_list_of_list_ones baseline (r : record) :
  (forall k v, dict_get k r = Some v -> conv v = v) ->
  ones_baseline baseline r.
Proof.
  intros Hconv S inner rest _ Hget.
  apply Hconv in Hget. discriminate.
Qed.

Lemma normalize_loop_spec baseline ls :
  forall (h : heap) res h',
    (forall l, In l ls ->
       exists r, h !! l = Some r
                 /\ (baseline <> None -> ones_baseline baseline r)) ->
    for_eachS ls
      (fun data_point _ => at_loc data_point (normalize_data_point baseline))
      tt h = (res, h') ->
    (forall l, ~ In l ls -> h' !! l = h !! l)
    /\ match res with
       | Ok _ =>
           forall l, In l ls ->
             exists r r', h !! l = Some r /\ h' !! l = Some r' /\ rec_eq r r'
       | Raise _ =>
           exists l r, In l ls /\ h !! l = Some r
                       /\ forall rd, exists e, aggregate_record r rd = Raise e
       end.
Proof.
  induction ls as [|l ls IH]; intros h res h' Hpre Hrun.
  - injection Hrun as <- <-. split; [reflexivity|intros l []].
  - rewrite for_eachS_cons, at_loc_run in Hrun.
    destruct (Hpre l (or_introl eq_refl)) as (r & Hl & Hones).
    rewrite Hl in Hrun.
    destruct (normalize_data_point baseline r) as [res1 r1] eqn:Hnorm.
    pose proof (normalize_rec_eq _ _ _ _ Hones Hnorm) as Hspec.
    assert (Hlt : l < length h) by (eapply lookup_lt_Some; eauto).
    destruct res1 as [[]|e]; simpl in Hrun.
    + destruct Hspec as [Hrec Hconv].
      assert (Hl1 : <[l := r1]> h !! l = Some r1)
        by now apply list_lookup_insert_eq.
      assert (Hpre1 : forall l0, In l0 ls ->
                exists r0, <[l := r1]> h !! l0 = Some r0
                  /\ (baseline <> None -> ones_baseline baseline r0)).
      { intros l0 Hin. destruct (Nat.eq_dec l l0) as [<-|Hne].
        - exists r1. split; [exact Hl1|]. intros _.
          now apply no_list_of_list_ones.
        - rewrite list_lookup_insert_ne by exact Hne. apply Hpre. now right. }
      destruct (IH _ _ _ Hpre1 Hrun) as [Hframe Hres]. split.
      * intros l0 Hl0. rewrite Hframe by (intros ?; apply Hl0; now right).
        apply list_lookup_insert_ne. intros ->. apply Hl0. now left.
      * destruct res as [[]|e].
        -- intros l0 [<-|Hin].
           ++ destruct (in_dec Nat.eq_dec l ls) as [Hin|Hnin].
              ** destruct (Hres l Hin) as (r0 & r0' & H0 & H0' & Hrec0).
                 rewrite Hl1 in H0. injection H0 as <-.
                 exists r, r0'. split; [exact Hl|]. split; [exact H0'|].
                 eapply rec_eq_trans; eauto.
              ** exists r, r1. split; [exact Hl|]. split; [|exact Hrec].
                 now rewrite (Hframe l Hnin).
           ++ destruct (Hres l0 Hin) as (r0 & r0' & H0 & H0' & Hrec0).
              destruct (Nat.eq_dec l l0) as [<-|Hne].
              ** rewrite Hl1 in H0. injection H0 as <-.
                 exists r, r0'. split; [exact Hl|]. split; [exact H0'|].
                 eapply rec_eq_trans; eauto.
              ** rewrite list_lookup_insert_ne in H0 by exact Hne.
                 now exists r0, r0'.
        -- destruct Hres as (l0 & r0 & Hin & H0 & Hbad).
           destruct (Nat.eq_dec l l0) as [<-|Hne].
           ++ rewrite Hl1 in H0. injection H0 as <-.
              exists l, r. split; [now left|]. split; [exact Hl|].
              intros rd. rewrite (rec_eq_aggregate_record _ _ rd Hrec).
              apply Hbad.
           ++ rewrite list_lookup_insert_ne in H0 by exact Hne.
              exists l0, r0. split; [now right|]. split; [exact H0|exact Hbad].
    + injection Hrun as <- <-. split.
      * intros l0 Hl0. apply list_lookup_insert_ne. intros ->.
        apply Hl0. now left.
      * destruct Hspec as [k Hk]. exists l, r.
        split; [now left|]. split; [exact Hl|].
        now apply aggregate_record_empty_list with (k := k).
Qed.

Lemma deepcopy_spec n results :
  forall memo (h : heap) res h',
    n <= length h ->
    Forall (fun l => l < n) results ->
    (forall l l', memo_get l memo = Some l' ->
       n <= l' /\ l < n /\ h !! l' = h !! l) ->
    deepcopy results memo h = (res, h') ->
    exists ls ext,
      res = Ok ls /\ h' = h ++ ext
      /\ Forall2 (fun l l' => l < n /\ n <= l' /\ h' !! l' = h !! l)
           results ls.
Proof.
  induction results as [|l results IH]; intros memo h res h' Hn Hval Hmemo Hrun.
  - injection Hrun as <- <-. exists [], []. rewrite app_nil_r.
    repeat split. constructor.
  - inversion Hval as [|? ? Hl Hval']; subst.
    destruct (lookup_lt_is_Some_2 h l ltac:(lia)) as [r Hr].
    simpl in Hrun. destruct (memo_get l memo) as [l'|] eqn:Hmem.
    + unfold mbind, ST_bind, mret, ST_ret in Hrun.
      destruct (deepcopy results memo h) as [res1 h1] eqn:Hrest.
      destruct (IH _ _ _ _ Hn Hval' Hmemo Hrest) as (ls & ext & -> & -> & Hls).
      injection Hrun as <- <-. exists (l' :: ls), ext.
      split; [reflexivity|]. split; [reflexivity|].
      constructor; [|exact Hls].
      destruct (Hmemo _ _ Hmem) as (Hn' & _ & Heq).
      split; [exact Hl|]. split; [exact Hn'|].
      rewrite <- Heq. apply lookup_app_l.
      apply lookup_lt_is_Some. rewrite Heq, Hr. eauto.
    + unfold mbind, ST_bind, mret, ST_ret, load, alloc in Hrun.
      rewrite Hr in Hrun.
      destruct (deepcopy results _ (h ++ [r])) as [res1 h1] eqn:Hrest.
      apply IH in Hrest as (ls & ext & -> & -> & Hls);
        [|rewrite length_app; lia|exact Hval'|].
      * injection Hrun as <- <-. exists (length h :: ls), ([r] ++ ext).
        split; [reflexivity|]. split; [now rewrite app_assoc|].
        constructor.
        -- split; [exact Hl|]. split; [exact Hn|]. rewrite Hr, <- app_assoc.
           now apply list_lookup_middle.
        -- eapply Forall2_impl; [exact Hls|].
           intros l0 l0' (H0 & H1 & H2). split; [exact H0|].
           split; [exact H1|]. rewrite H2. apply lookup_app_l. lia.
      * intros l0 l0'. simpl. destruct (Nat.eqb_spec l l0) as [<-|Hne].
        -- intros [= <-]. split; [exact Hn|]. split; [exact Hl|].
           rewrite (lookup_app_l h [r] l) by lia.
           rewrite Hr. now apply list_lookup_middle.
        -- intros Hm. destruct (Hmemo _ _ Hm) as (H1 & H2 & H3).
           split; [exact H1|]. split; [exact H2|].
           rewrite (lookup_app_l h [r] l0) by lia.
           rewrite <- H3. apply lookup_app_l.
           apply lookup_lt_is_Some. rewrite H3.
           apply lookup_lt_is_Some. lia.
Qed.

Lemma load_all_ok ls (h : heap) rs :
  Forall2 (fun l r => h !! l = Some r) ls rs -> load_all ls h = (Ok rs, h).
Proof.
  induction 1 as [|l r ls rs Hl _ IH]; [reflexivity|].
  simpl. unfold mbind, ST_bind, mret, ST_ret, load. now rewrite Hl, IH.
Qed.

Lemma aggregate_data_at_run results (h : heap) rs :
  Forall2 (fun l r => h !! l = Some r) results rs ->
  aggregate_data_at results h = (aggregate_data rs, h).
Proof.
  intros H. unfold aggregate_data_at, mbind, ST_bind, lift.
  now rewrite (load_all_ok _ _ _ H).
Qed.

Lemma load_all_valid ls (h : heap) :
  Forall (fun l => l < length h) ls ->
  exists rs, Forall2 (fun l r => h !! l = Some r) ls rs.
Proof.
  induction 1 as [|l ls Hl _ [rs IH]]; [now exists []|].
  destruct (lookup_lt_is_Some_2 h l Hl) as [r Hr].
  exists (r :: rs). now constructor.
Qed.

Lemma Forall2_In_r {A B : Type} (R : A -> B -> Prop) xs ys y :
  Forall2 R xs ys -> In y ys -> exists x, In x xs /\ R x y.
Proof.
  induction 1 as [|x y0 xs ys Hxy _ IH]; intros Hin; [destruct Hin|].
  destruct Hin as [->|Hin].
  - exists x. split; [now left|exact Hxy].
  - destruct (IH Hin) as (x' & Hx' & HR). exists x'. split; [now right|exact HR].
Qed.

Lemma Forall2_In_l {A B : Type} (R : A -> B -> Prop) xs ys x :
  Forall2 R xs ys -> In x xs -> exists y, In y ys /\ R x y.
Proof.
  induction 1 as [|x0 y xs ys Hxy _ IH]; intros Hin; [destruct Hin|].
  destruct Hin as [->|Hin].
  - exists y. split; [now left|exact Hxy].
  - destruct (IH Hin) as (y' & Hy' & HR). exists y'. split; [now right|exact HR].
Qed.

Lemma copies_agree (h h1 h2 : heap) n results ls :
  Forall2 (fun l l' => l < n /\ n <= l' /\ h1 !! l' = h !! l) results ls ->
  (forall l', In l' ls ->
     exists r r', h1 !! l' = Some r /\ h2 !! l' = Some r' /\ rec_eq r r') ->
  exists rs rs',
    Forall2 (fun l r => h !! l = Some r) results rs
    /\ Forall2 (fun l' r' => h2 !! l' = Some r') ls rs'
    /\ Forall2 rec_eq rs rs'.
Proof.
  induction 1 as [|l l' results ls (_ & _ & Hl) _ IH]; intros Hloop.
  - exists [], []. repeat split; constructor.
  - destruct IH as (rs & rs' & H1 & H2 & H3);
      [intros; apply Hloop; now right|].
    destruct (Hloop l' (or_introl eq_refl)) as (r & r' & Hr & Hr' & Hrec).
    exists (r :: rs), (r' :: rs').
    split; [constructor; [congruence|exact H1]|].
    split; constructor; assumption.
Qed.

(** Under all-ones baselines (or no baseline), normalized and plain
    aggregation return the same mapping, or both raise. *)
Lemma normalize_agrees results baseline (h : heap) :
  Forall (fun l => l < length h) results ->
  (baseline <> None ->
   forall l r, In l results -> h !! l = Some r -> ones_baseline baseline r) ->
  fst (aggregate_normalize_data results baseline h)
  = fst (aggregate_data_at results h)
  \/ ((exists e, fst (aggregate_normalize_data results baseline h) = Raise e)
      /\ exists e, fst (aggregate_data_at results h) = Raise e).
Proof.
  intros Hval Hones.
  destruct (load_all_valid _ _ Hval) as [rs Hrs].
  rewrite (aggregate_data_at_run _ _ _ Hrs). simpl.
  remember (fst (aggregate_normalize_data results baseline h)) as out eqn:Hout.
  unfold aggregate_normalize_data, mbind, ST_bind in Hout.
  destruct (deepcopy results [] h) as [res1 h1] eqn:Hcopy.
  apply (deepcopy_spec (length h)) in Hcopy as (ls & ext & -> & -> & Hls);
    [|reflexivity|exact Hval|discriminate].
  destruct (for_eachS ls _ tt (h ++ ext)) as [res2 h2] eqn:Hloop.
  apply normalize_loop_spec in Hloop as [_ Hloop].
  - destruct res2 as [[]|e].
    + left.
      destruct (copies_agree _ _ _ _ _ _ Hls Hloop) as (rs0 & rs' & H1 & H2 & H3).
      rewrite (aggregate_data_at_run _ _ _ H2) in Hout. simpl in Hout.
      assert (rs0 = rs) as ->.
      { clear -H1 Hrs. revert rs0 H1.
        induction Hrs as [|l r ls0 rs Hl _ IH]; intros rs0 H1;
          inversion H1; subst; [reflexivity|].
        f_equal; [congruence|now apply IH]. }
      subst out. symmetry. now apply aggregate_data_rec_eq.
    + right. simpl in Hout. split; [now exists e|].
      destruct Hloop as (l' & r & Hin & Hr & Hbad).
      destruct (Forall2_In_r _ _ _ _ Hls Hin) as (l & Hl & _ & _ & Heq).
      rewrite Heq in Hr.
      destruct (Forall2_In_l _ _ _ _ Hrs Hl) as (r0 & Hr0 & Hlr).
      rewrite Hr in Hlr. injection Hlr as <-.
      now apply aggregate_data_raises with (r := r).
  - intros l' Hin.
    destruct (Forall2_In_r _ _ _ _ Hls Hin) as (l & Hl & Hlt & _ & Heq).
    destruct (lookup_lt_is_Some_2 h l Hlt) as [r Hr].
    exists r. split; [congruence|]. intros Hb. now apply (Hones Hb l).
Qed.

(** C8: with no baseline, normalized aggregation returns a mapping exactly
    when plain aggregation does, and it is the same mapping ([results]
    refers to dicts of the heap). *)
Theorem C8_no_baseline_is_plain (results : list loc) (h : heap)
    (Hvalid : Forall (fun l => l < length h) results)
    (m : dict (npfloat * npfloat)) :
  fst (aggregate_normalize_data results None h) = Ok m
  <-> fst (aggregate_data_at results h) = Ok m.
Proof.
  destruct (normalize_agrees results None h Hvalid) as [->|[[e ->] [e' ->]]];
    [congruence|reflexivity|].
  split; discriminate.
Qed.

Lemma C8_no_baseline_is_plain_witness :
  Forall (fun l => l < length nested_heap) [0; 1]
  /\ (fst (aggregate_normalize_data [0; 1] None nested_heap)
       = Ok [("a", (fin 3, sqrt_fin 2)); ("None_a", (fin 6, sqrt_fin 1));
             ("c", (fin (1 # 2), sqrt_fin 0))]
       <-> fst (aggregate_data_at [0; 1] nested_heap)
           = Ok [("a", (fin 3, sqrt_fin 2)); ("None_a", (fin 6, sqrt_fin 1));
                 ("c", (fin (1 # 2), sqrt_fin 0))]).
Proof.
  split.
  - repeat (constructor; [simpl; lia|]). constructor.
  - apply (C8_no_baseline_is_plain [0; 1] nested_heap).
    repeat (constructor; [simpl; lia|]). constructor.
Defined.

(* --------------------------------------------------------------------- *)
(** *** Values that normalization leaves alone                            *)

Lemma flat_conv v : flat v -> conv v = v.
Proof.
  destruct v as [s|[|[s|inner] l]|dt a|]; simpl; try reflexivity.
  intros H. inversion H as [|? ? [s Hs] _]. discriminate.
Qed.

Lemma flat_not_divided v b v' : flat v -> divide_masked v b = Ok v' -> v' = v.
Proof.
  intros Hflat Hdiv.
  destruct (divide_masked_array _ _ _ Hdiv) as (dt & a & a' & -> & _).
  destruct Hflat.
Qed.

(** C10: a metric whose value is a scalar or a flat list of scalars has
    the same value after the two loops over its data point, whatever the
    baseline and whether the loops return or raise. *)
Theorem C10_flat_values_unchanged (baseline : option string) (r : record)
    (key : string) (v : value)
    (Hkey : dict_get key r = Some v) (Hflat : flat v) :
  dict_get key (snd (normalize_data_point baseline r)) = Some v.
Proof.
  rewrite normalize_data_point_run.
  destruct (for_eachS _ _ _ r) as [res1 r1] eqn:Hfirst.
  destruct (first_loop_spec _ _ _ _ _ _ (keys_present r) Hfirst)
    as (Hkeys1 & Hany & Hres).
  assert (Hkey1 : dict_get key r1 = Some v).
  { destruct (Hany key) as [H|H]; rewrite H, Hkey; [reflexivity|].
    simpl. now rewrite flat_conv. }
  destruct res1 as [avg|e]; [|exact Hkey1].
  destruct baseline as [b|]; [|exact Hkey1].
  destruct Hres as [_ Havg].
  destruct (for_eachS _ _ tt r1) as [res2 r2] eqn:Hsecond. simpl.
  apply (second_loop_spec (fun u u' => flat u -> u' = u)) in Hsecond
    as (_ & _ & Hrel).
  - specialize (Hrel key). rewrite Hkey1 in Hrel.
    inversion Hrel as [? v' Hv|]; subst. now rewrite (Hv Hflat).
  - reflexivity.
  - intros u1 u2 u3 H12 H23 Hf. rewrite (H23 ltac:(now rewrite H12)).
    now apply H12.
  - intros S s Hs.
    destruct (Havg S s Hs) as [H|(? & ? & _ & _ & ->)]; [discriminate|exact I].
  - intros S dt bb u u' _ Hdiv Hf. eapply flat_not_divided; eauto.
  - intros k Hin. now apply keys_present.
Qed.

Lemma C10_flat_values_unchanged_witness :
  dict_get "x_r" [("b_r", VList [EList [NInt 0; NInt 2]]);
                  ("x_r", VList [int_elem 10; int_elem 20])]
  = Some (VList [int_elem 10; int_elem 20])
  /\ flat (VList [int_elem 10; int_elem 20])
  /\ dict_get "x_r"
       (snd (normalize_data_point (Some "b")
               [("b_r", VList [EList [NInt 0; NInt 2]]);
                ("x_r", VList [int_elem 10; int_elem 20])]))
     = Some (VList [int_elem 10; int_elem 20]).
Proof.
  assert (Hflat : flat (VList [int_elem 10; int_elem 20])).
  { simpl. repeat constructor; eexists; reflexivity. }
  split; [reflexivity|]. split; [exact Hflat|].
  apply (C10_flat_values_unchanged (Some "b")
           [("b_r", VList [EList [NInt 0; NInt 2]]);
            ("x_r", VList [int_elem 10; int_elem 20])]
           "x_r" (VList [int_elem 10; int_elem 20]) eq_refl Hflat).
Defined.

(* --------------------------------------------------------------------- *)
(** *** The scalar baseline                                               *)

Lemma dict_set_Forall {V : Type} (P : string * V -> Prop) k v (d : dict V) :
  P (k, v) -> (forall k' v', P (k', v') -> P (k', v)) ->
  Forall P d -> Forall P (dict_set k v d).
Proof.
  intros Hkv Hrepl. induction 1 as [|[k' v'] d Hhd Htl IH]; simpl.
  - repeat constructor. exact Hkv.
  - destruct (String.eqb k' k); constructor;
      [now apply (Hrepl k' v')|exact Htl|exact Hhd|exact IH].
Qed.

Lemma first_loop_arrays baseline ks :
  forall avg (r : record),
    Forall (fun kv => is_array_series (snd kv)) avg ->
    match fst (for_eachS ks (first_loop_body baseline) avg r) with
    | Ok avg' => Forall (fun kv => is_array_series (snd kv)) avg'
    | Raise _ => True
    end.
Proof.
  induction ks as [|k0 ks IH]; intros avg r Havg; [exact Havg|].
  rewrite for_eachS_cons.
  destruct (dict_get k0 r) as [v|] eqn:Hk0.
  - rewrite (first_loop_body_run _ _ _ _ _ Hk0).
    destruct (is_list_of_list v) as [[inner|]|e]; [| |exact I].
    + apply IH. destruct (_ && _); [|exact Havg].
      apply dict_set_Forall; [exact I|now intros|exact Havg].
    + now apply IH.
  - unfold first_loop_body. st_unfold. unfold getitem. rewrite Hk0. exact I.
Qed.

(** C2: no call of [aggregate_normalize_data] divides by a scalar
    baseline.  On [[{"b_r": [2.0], "m_r": [10.0]}]] with baseline ["b"] the
    first element of [m_r] is not divided by 2.0: the first loop passes
    over the flat list [b_r] (the [continue] of line 161) before line 167
    could record its first element, and the mapping is that of plain
    aggregation.  On every dict the first loop records arrays only, so
    that line 178 is never reached. *)
Theorem C2_scalar_baseline_never_applied :
  fst (aggregate_normalize_data [0] (Some "b") scalar_baseline_heap)
  = Ok [("b_r", (fin 2, sqrt_fin 0)); ("m_r", (fin 10, sqrt_fin 0))]
  /\ aggregate_data scalar_baseline_heap
     = Ok [("b_r", (fin 2, sqrt_fin 0)); ("m_r", (fin 10, sqrt_fin 0))]
  /\ (forall baseline (data_point : record),
        match fst (for_eachS (dict_keys data_point)
                     (first_loop_body baseline) [] data_point) with
        | Ok avg => Forall (fun kv => is_array_series (snd kv)) avg
        | Raise _ => True
        end).
Proof.
  split; [vm_compute; reflexivity|]. split; [vm_compute; reflexivity|].
  intros baseline data_point. apply first_loop_arrays. constructor.
Qed.

(* --------------------------------------------------------------------- *)
(** *** Inputs on which nothing is raised                                 *)

Lemma pool_numbers_numeric p : numeric p -> exists qs, pool_numbers p = Some qs.
Proof.
  induction 1 as [|e p [q ->] _ [qs IH]]; [now exists []|].
  simpl. rewrite IH. now eexists.
Qed.

Lemma np_mean_numeric p : numeric p -> exists x, np_mean p = Ok x.
Proof.
  intros H. unfold np_mean. destruct (pool_numbers_numeric p H) as [qs ->].
  destruct qs; now eexists.
Qed.

Lemma np_std_numeric p : numeric p -> exists x, np_std p = Ok x.
Proof.
  intros H. unfold np_std. destruct (pool_numbers_numeric p H) as [qs ->].
  destruct qs; now eexists.
Qed.

Lemma mean_std_numeric rd :
  Forall (fun kp => numeric (snd kp)) rd -> exists m, mean_std rd = Ok m.
Proof.
  induction 1 as [|[i p] rd Hp _ [m IH]]; [now exists []|].
  simpl. destruct (np_mean_numeric p Hp) as [x ->].
  destruct (np_std_numeric p Hp) as [y ->]. simpl. rewrite IH. now eexists.
Qed.

Lemma dict_get_Forall {V : Type} (P : V -> Prop) k v (d : dict V) :
  Forall (fun kv => P (snd kv)) d -> dict_get k d = Some v -> P v.
Proof.
  induction 1 as [|[k' v'] d Hhd _ IH]; simpl; [discriminate|].
  destruct (String.eqb k' k); [now intros [= <-]|exact IH].
Qed.

Lemma add_obs_numeric k obs rd :
  numeric obs ->
  Forall (fun kp => numeric (snd kp)) rd ->
  Forall (fun kp => numeric (snd kp)) (add_obs k obs rd).
Proof.
  intros Hobs Hrd. unfold add_obs, extend_pool.
  assert (Hinit : Forall (fun kp => numeric (snd kp)) (init_pool k rd)).
  { unfold init_pool. destruct (dict_mem k rd); [exact Hrd|].
    apply dict_set_Forall; [constructor|intros; constructor|exact Hrd]. }
  destruct (dict_get k (init_pool k rd)) as [p|] eqn:Hp; [|exact Hinit].
  assert (Hnew : numeric (p ++ obs)).
  { apply Forall_app. split; [|exact Hobs].
    exact (dict_get_Forall numeric _ _ _ Hinit Hp). }
  apply dict_set_Forall; [exact Hnew|now intros|exact Hinit].
Qed.

Lemma aggregate_value_total k v rd :
  well_shapedb v = true ->
  Forall (fun kp => numeric (snd kp)) rd ->
  exists rd', aggregate_value k v rd = Ok rd'
              /\ Forall (fun kp => numeric (snd kp)) rd'.
Proof.
  intros Hv Hrd.
  destruct v as [[n|s| |b]|[|[[n|s| |b]|inner] l]|dt a|]; try discriminate;
    simpl; eexists; (split; [reflexivity|]); try exact Hrd;
    apply add_obs_numeric; try exact Hrd.
  - repeat constructor. now eexists.
  - repeat constructor. now eexists.
  - apply Forall_map, Forall_forall. intros; now eexists.
  - apply Forall_map, Forall_forall. intros; now eexists.
Qed.

Lemma aggregate_record_total (r : record) rd :
  shaped r ->
  Forall (fun kp => numeric (snd kp)) rd ->
  exists rd', aggregate_record r rd = Ok rd'
              /\ Forall (fun kp => numeric (snd kp)) rd'.
Proof.
  intros Hr. unfold aggregate_record.
  pose proof (keys_present r) as Hks. revert rd.
  induction (dict_keys r) as [|k ks IH]; intros rd Hrd; [now exists rd|].
  simpl. unfold getitem.
  destruct (dict_get k r) as [v|] eqn:Hk;
    [|now elim (Hks k (or_introl eq_refl))].
  simpl. destruct (aggregate_value_total k v rd (Hr _ _ Hk) Hrd)
    as (rd1 & -> & Hrd1).
  simpl. apply IH; [|exact Hrd1]. intros; apply Hks; now right.
Qed.

Lemma aggregate_data_total rs :
  Forall shaped rs -> exists m, aggregate_data rs = Ok m.
Proof.
  intros Hrs. unfold aggregate_data.
  assert (H : forall rd, Forall (fun kp => numeric (snd kp)) rd ->
            exists rd', for_each rs aggregate_record rd = Ok rd'
                        /\ Forall (fun kp => numeric (snd kp)) rd').
  { induction Hrs as [|r rs Hr _ IH]; intros rd Hrd; [now exists rd|].
    simpl. destruct (aggregate_record_total r rd Hr Hrd) as (rd1 & -> & Hrd1).
    simpl. now apply IH. }
  destruct (H [] ltac:(constructor)) as (rd & -> & Hrd). simpl.
  now apply mean_std_numeric.
Qed.

Lemma well_shaped_record_shaped (r : record) :
  well_shaped_record r = true -> shaped r.
Proof.
  unfold well_shaped_record. intros H k v Hk.
  induction r as [|[k' v'] r IH]; [discriminate|].
  simpl in H, Hk. apply andb_prop in H as [Hv' Hr].
  destruct (String.eqb k' k); [now injection Hk as <-|now apply IH].
Qed.

Lemma conv_well_shaped v : well_shapedb v = true -> well_shapedb (conv v) = true.
Proof. now destruct v as [s|[|[s|inner] l]|dt a|]. Qed.

Lemma normalize_total baseline (r : record) :
  shaped r ->
  exists r', normalize_data_point baseline r = (Ok tt, r') /\ shaped r'.
Proof.
  intros Hr. rewrite normalize_data_point_run.
  destruct (for_eachS _ _ _ r) as [[avg|e] r1] eqn:Hfirst.
  - apply first_loop_all_keys in Hfirst as (Hkeys1 & Hget1 & Havg).
    assert (Hr1 : shaped r1).
    { intros k v. rewrite Hget1. destruct (dict_get k r) as [w|] eqn:Hw;
        [|discriminate].
      simpl. intros [= <-]. apply conv_well_shaped. eauto. }
    destruct baseline as [b|]; [|now exists r1].
    destruct (for_eachS _ _ tt r1) as [res2 r2] eqn:Hsecond.
    apply (second_loop_spec
             (fun u u' => well_shapedb u = true -> well_shapedb u' = true))
      in Hsecond as (-> & _ & Hrel).
    + exists r2. split; [reflexivity|]. intros k v Hv.
      specialize (Hrel k). rewrite Hv in Hrel.
      inversion Hrel as [w ? Hw Heq|]; subst. symmetry in Heq. eauto.
    + auto.
    + auto.
    + intros S s Hs. now destruct (Havg S s Hs) as (? & ? & _ & _ & ->).
    + intros S dt bb u u' _ Hdiv _.
      now destruct (divide_masked_array _ _ _ Hdiv) as (? & ? & ? & _ & ->).
    + intros k Hin. now apply keys_present.
  - destruct (first_loop_spec _ _ _ _ _ _ (keys_present r) Hfirst)
      as (_ & _ & _ & k & _ & Hk).
    apply Hr in Hk. discriminate.
Qed.

Lemma normalize_loop_total baseline ls :
  forall (h : heap) res h',
    (forall l, In l ls -> exists r, h !! l = Some r /\ shaped r) ->
    for_eachS ls
      (fun data_point _ => at_loc data_point (normalize_data_point baseline))
      tt h = (res, h') ->
    res = Ok tt
    /\ (forall l, ~ In l ls -> h' !! l = h !! l)
    /\ forall l, In l ls -> exists r', h' !! l = Some r' /\ shaped r'.
Proof.
  induction ls as [|l ls IH]; intros h res h' Hpre Hrun.
  - injection Hrun as <- <-. repeat split. intros l [].
  - rewrite for_eachS_cons, at_loc_run in Hrun.
    destruct (Hpre l (or_introl eq_refl)) as (r & Hl & Hr).
    rewrite Hl in Hrun.
    destruct (normalize_total baseline r Hr) as (r1 & Hnorm & Hr1).
    rewrite Hnorm in Hrun. simpl in Hrun.
    assert (Hlt : l < length h) by (eapply lookup_lt_Some; eauto).
    assert (Hl1 : <[l := r1]> h !! l = Some r1)
      by now apply list_lookup_insert_eq.
    apply IH in Hrun as (-> & Hframe & Hall).
    + split; [reflexivity|]. split.
      * intros l0 Hl0. rewrite Hframe by (intros ?; apply Hl0; now right).
        apply list_lookup_insert_ne. intros ->. apply Hl0. now left.
      * intros l0 [<-|Hin]; [|now apply Hall].
        destruct (in_dec Nat.eq_dec l ls) as [Hin|Hnin]; [now apply Hall|].
        exists r1. split; [|exact Hr1]. now rewrite (Hframe l Hnin).
    + intros l0 Hin. destruct (Nat.eq_dec l l0) as [<-|Hne].
      * now exists r1.
      * rewrite list_lookup_insert_ne by exact Hne. apply Hpre. now right.
Qed.

Lemma load_all_shaped ls (h : heap) :
  (forall l, In l ls -> exists r, h !! l = Some r /\ shaped r) ->
  exists rs, Forall2 (fun l r => h !! l = Some r) ls rs /\ Forall shaped rs.
Proof.
  induction ls as [|l ls IH]; intros H.
  - exists []. split; constructor.
  - destruct IH as (rs & H1 & H2); [intros; apply H; now right|].
    destruct (H l (or_introl eq_refl)) as (r & Hl & Hr).
    exists (r :: rs). split; constructor; assumption.
Qed.

(** C3, as the code has it: when every value of every record is a scalar
    of any kind, a list whose first element is a number or an inner list
    of numbers, or a numeric array, both entry points return a mapping
    and raise nothing, whatever the baseline; and plain aggregation passes
    over a string, [None] or a [bool] without touching the pools. *)
Theorem C3_well_shaped_no_exception (results : list loc)
    (baseline : option string) (h : heap)
    (Hvalid : Forall (fun l => l < length h) results)
    (Hshaped : forall l r, In l results -> h !! l = Some r ->
                           well_shaped_record r = true) :
  (exists m, fst (aggregate_data_at results h) = Ok m)
  /\ (exists m, fst (aggregate_normalize_data results baseline h) = Ok m)
  /\ (forall k ret_dict,
        (forall s, aggregate_value k (VScalar (SStr s)) ret_dict = Ok ret_dict)
        /\ aggregate_value k (VScalar SNone) ret_dict = Ok ret_dict
        /\ forall b, aggregate_value k (VScalar (SBool b)) ret_dict
                     = Ok ret_dict).
Proof.
  assert (Hpre : forall l, In l results -> exists r, h !! l = Some r /\ shaped r).
  { intros l Hin. rewrite Forall_forall in Hvalid.
    destruct (lookup_lt_is_Some_2 h l) as [r Hr];
      [apply Hvalid; now apply list_elem_of_In|].
    exists r. split; [exact Hr|].
    eapply well_shaped_record_shaped, Hshaped; eauto. }
  split; [|split; [|now repeat split]].
  - destruct (load_all_shaped _ _ Hpre) as (rs & Hrs & Hsh).
    rewrite (aggregate_data_at_run _ _ _ Hrs). simpl.
    now apply aggregate_data_total.
  - unfold aggregate_normalize_data, mbind, ST_bind.
    destruct (deepcopy results [] h) as [res1 h1] eqn:Hcopy.
    apply (deepcopy_spec (length h)) in Hcopy as (ls & ext & -> & -> & Hls);
      [|reflexivity|exact Hvalid|discriminate].
    destruct (for_eachS ls _ tt (h ++ ext)) as [res2 h2] eqn:Hloop.
    apply normalize_loop_total in Hloop as (-> & _ & Hall).
    + destruct (load_all_shaped _ _ Hall) as (rs & Hrs & Hsh).
      rewrite (aggregate_data_at_run _ _ _ Hrs). simpl.
      now apply aggregate_data_total.
    + intros l' Hin.
      destruct (Forall2_In_r _ _ _ _ Hls Hin) as (l & Hl & _ & _ & Heq).
      rewrite Heq. now apply Hpre.
Qed.

Lemma C3_well_shaped_no_exception_witness :
  Forall (fun l => l < length mixed_heap) [0; 1]
  /\ (forall l r, In l [0; 1] -> mixed_heap !! l = Some r ->
                  well_shaped_record r = true)
  /\ (exists m, fst (aggregate_data_at [0; 1] mixed_heap) = Ok m)
  /\ (exists m, fst (aggregate_normalize_data [0; 1] (Some "b") mixed_heap)
                = Ok m)
  /\ (forall k ret_dict,
        (forall s, aggregate_value k (VScalar (SStr s)) ret_dict = Ok ret_dict)
        /\ aggregate_value k (VScalar SNone) ret_dict = Ok ret_dict
        /\ forall b, aggregate_value k (VScalar (SBool b)) ret_dict
                     = Ok ret_dict).
Proof.
  assert (Hvalid : Forall (fun l => l < length mixed_heap) [0; 1])
    by (repeat (constructor; [simpl; lia|]); constructor).
  assert (Hshaped : forall l r, In l [0; 1] -> mixed_heap !! l = Some r ->
                                well_shaped_record r = true).
  { intros l r [<-|[<-|[]]]; simpl; intros [= <-]; reflexivity. }
  split; [exact Hvalid|]. split; [exact Hshaped|].
  apply (C3_well_shaped_no_exception [0; 1] (Some "b") mixed_heap
           Hvalid Hshaped).
Defined.

(** C3 fails as stated: the empty list raises IndexError out of both
    entry points, and a list of strings raises TypeError out of
    [aggregate_data] when [np.mean] meets the characters. *)
Lemma C3_malformed_shapes_raise :
  aggregate_data empty_list_results = Raise IndexError
  /\ fst (aggregate_normalize_data [0] None empty_list_heap) = Raise IndexError
  /\ fst (aggregate_normalize_data [0] (Some "b") empty_list_heap)
     = Raise IndexError
  /\ aggregate_data string_list_results = Raise TypeError.
Proof. repeat split; vm_compute; reflexivity. Qed.

(* --------------------------------------------------------------------- *)
(** *** More on plain aggregation                                         *)

Lemma dict_get_map_values {V W : Type} (f : V -> W) k (d : dict V) :
  dict_get k (map_values f d) = f <$> dict_get k d.
Proof.
  induction d as [|[k' v] d IH]; [reflexivity|].
  simpl. now destruct (String.eqb k' k).
Qed.

Lemma dict_keys_map_values {V W : Type} (f : V -> W) (d : dict V) :
  dict_keys (map_values f d) = dict_keys d.
Proof. unfold dict_keys, map_values. rewrite map_map. now apply map_ext. Qed.

Lemma rec_eq_conv (r : record) : rec_eq r (map_values conv r).
Proof.
  split; [now rewrite dict_keys_map_values|].
  intros k. rewrite dict_get_map_values.
  destruct (dict_get k r); constructor. apply conv_agg_eq.
Qed.

(** X1: plain aggregation takes a list of list for the array of its inner
    list: replacing, in every record, each value [[[x1, ..., xn], ...]] by
    the array [np.array([x1, ..., xn])] changes nothing of what
    [aggregate_data] returns or raises. *)
Theorem X1_list_of_list_as_array (results : list record) :
  aggregate_data (map (map_values conv) results) = aggregate_data results.
Proof.
  symmetry. apply aggregate_data_rec_eq.
  induction results as [|r results IH]; constructor;
    [apply rec_eq_conv|exact IH].
Qed.

Lemma has_baseline_ones baseline (r : record) :
  has_baseline baseline r = false -> ones_baseline baseline r.
Proof.
  intros Hb S inner rest HS Hget. exfalso.
  assert (Hin : In (format_key baseline S, VList (EList inner :: rest)) r).
  { clear -Hget. induction r as [|[k v] r IH]; [discriminate|].
    simpl in Hget. destruct (String.eqb_spec k (format_key baseline S)) as [->|].
    - injection Hget as ->. now left.
    - right. now apply IH. }
  assert (Ht : has_baseline baseline r = true).
  { unfold has_baseline. apply existsb_exists. eexists. split; [exact Hin|].
    simpl. now rewrite HS, String.eqb_refl. }
  congruence.
Qed.

(** X3: a baseline is read from list-of-list values only.  When no record
    holds a list of list under a key [baseline_S], normalized aggregation
    returns a mapping exactly when plain aggregation does, and the same
    one: a missing baseline, or one given as an array or a flat list,
    normalizes nothing. *)
Theorem X3_no_baseline_series_is_plain (results : list loc) (b : string)
    (h : heap)
    (Hvalid : Forall (fun l => l < length h) results)
    (Hnone : forall l r, In l results -> h !! l = Some r ->
                         has_baseline (Some b) r = false)
    (m : dict (npfloat * npfloat)) :
  fst (aggregate_normalize_data results (Some b) h) = Ok m
  <-> fst (aggregate_data_at results h) = Ok m.
Proof.
  destruct (normalize_agrees results (Some b) h Hvalid) as [->|[[e ->] [e' ->]]].
  - intros _ l r Hin Hr. eapply has_baseline_ones, Hnone; eauto.
  - reflexivity.
  - split; discriminate.
Qed.

Lemma X3_no_baseline_series_is_plain_witness :
  Forall (fun l => l < length array_heap) [0; 1]
  /\ (forall l r, In l [0; 1] -> array_heap !! l = Some r ->
                  has_baseline (Some "b") r = false)
  /\ (fst (aggregate_normalize_data [0; 1] (Some "b") array_heap)
      = Ok [("b_r", (fin (11 # 3), sqrt_fin (14 # 9)));
            ("m_r", (fin 20, sqrt_fin (200 # 3)))]
      <-> fst (aggregate_data_at [0; 1] array_heap)
          = Ok [("b_r", (fin (11 # 3), sqrt_fin (14 # 9)));
                ("m_r", (fin 20, sqrt_fin (200 # 3)))]).
Proof.
  assert (Hvalid : Forall (fun l => l < length array_heap) [0; 1])
    by (repeat (constructor; [simpl; lia|]); constructor).
  assert (Hnone : forall l r, In l [0; 1] -> array_heap !! l = Some r ->
                              has_baseline (Some "b") r = false).
  { intros l r [<-|[<-|[]]]; simpl; intros [= <-]; reflexivity. }
  split; [exact Hvalid|]. split; [exact Hnone|].
  apply (X3_no_baseline_series_is_plain [0; 1] "b" array_heap Hvalid Hnone).
Defined.

(** Distinct keys of a dict that is written out. *)
Ltac nodup_keys :=
  repeat (apply NoDup_cons_2;
          [repeat rewrite not_elem_of_cons;
           repeat split; try discriminate; apply not_elem_of_nil|]);
  apply NoDup_nil_2.

Lemma aggregate_value_observations k v rd rd' :
  aggregate_value k v rd = Ok rd' ->
  (rd' = rd /\ observations v = []) \/ rd' = add_obs k (observations v) rd.
Proof.
  destruct v as [[n|s| |b]|[|[[n|s| |b]|inner] l]|dt a|]; simpl; intros H;
    try discriminate; injection H as <-; auto.
Qed.

Lemma aggregate_value_pool k k' v rd rd' :
  aggregate_value k' v rd = Ok rd' ->
  default [] (dict_get k rd')
  = default [] (dict_get k rd)
    ++ (if String.eqb k' k then observations v else []).
Proof.
  intros H. apply aggregate_value_observations in H as [[-> ->]| ->].
  - destruct (String.eqb k' k); now rewrite app_nil_r.
  - rewrite add_obs_get. destruct (String.eqb_spec k' k) as [->|];
      [reflexivity|now rewrite app_nil_r].
Qed.

Lemma aggregate_keys_pool (l : record) k ks :
  NoDup ks ->
  forall rd rd',
    for_each ks (fun k rd => v ← getitem l k; aggregate_value k v rd) rd
    = Ok rd' ->
    default [] (dict_get k rd')
    = default [] (dict_get k rd)
      ++ (if in_dec string_dec k ks
          then match dict_get k l with
               | Some v => observations v
               | None => []
               end
          else []).
Proof.
  induction 1 as [|k0 ks Hk0 Hks IH]; intros rd rd' H.
  - injection H as <-. simpl. now rewrite app_nil_r.
  - simpl in H. apply bind_Ok_inv in H as (rd1 & H1 & H2).
    apply bind_Ok_inv in H1 as (v0 & Hv0 & H1).
    unfold getitem in Hv0. destruct (dict_get k0 l) as [v0'|] eqn:Hget;
      [injection Hv0 as ->|discriminate].
    rewrite (IH _ _ H2), (aggregate_value_pool k _ _ _ _ H1), <- app_assoc.
    f_equal. destruct (String.eqb_spec k0 k) as [->|Hne].
    + rewrite Hget.
      destruct (in_dec string_dec k ks) as [Hin|_];
        [now elim Hk0; apply list_elem_of_In|].
      destruct (in_dec string_dec k (k :: ks)) as [_|Hn];
        [now rewrite app_nil_r|elim Hn; now left].
    + destruct (in_dec string_dec k ks) as [Hin|Hnin],
        (in_dec string_dec k (k0 :: ks)) as [Hin'|Hnin'];
        [reflexivity|elim Hnin'; now right
        |destruct Hin' as [?|?]; contradiction|reflexivity].
Qed.

Lemma aggregate_record_pool (l : record) k rd rd' :
  NoDup (dict_keys l) ->
  aggregate_record l rd = Ok rd' ->
  default [] (dict_get k rd')
  = default [] (dict_get k rd)
    ++ match dict_get k l with
       | Some v => observations v
       | None => []
       end.
Proof.
  intros Hnd H. rewrite (aggregate_keys_pool l k _ Hnd _ _ H).
  destruct (in_dec string_dec k (dict_keys l)) as [_|Hn]; [reflexivity|].
  destruct (dict_get k l) eqn:Hk; [|reflexivity].
  elim Hn. apply dict_get_In. now rewrite Hk.
Qed.

Lemma aggregate_results_pool k results :
  Forall (fun r : record => NoDup (dict_keys r)) results ->
  forall rd rd',
    for_each results aggregate_record rd = Ok rd' ->
    default [] (dict_get k rd')
    = default [] (dict_get k rd) ++ pool_of k results.
Proof.
  induction 1 as [|r results Hr _ IH]; intros rd rd' H.
  - injection H as <-. unfold pool_of. simpl. now rewrite app_nil_r.
  - simpl in H. apply bind_Ok_inv in H as (rd1 & H1 & H2).
    rewrite (IH _ _ H2), (aggregate_record_pool _ k _ _ Hr H1).
    unfold pool_of. simpl. now rewrite app_assoc.
Qed.

Lemma mean_std_get rd m k x s :
  mean_std rd = Ok m -> dict_get k m = Some (x, s) ->
  exists p, dict_get k rd = Some p /\ np_mean p = Ok x /\ np_std p = Ok s.
Proof.
  revert m. induction rd as [|[i p] rd IH]; simpl; intros m H Hk.
  - injection H as <-. discriminate.
  - apply bind_Ok_inv in H as (mu & Hmu & H).
    apply bind_Ok_inv in H as (sd & Hsd & H).
    apply bind_Ok_inv in H as (m' & Hm' & H).
    injection H as <-. simpl in Hk.
    destruct (String.eqb i k); [|now apply (IH m')].
    injection Hk as <- <-. now exists p.
Qed.

(** X2: the pair that [aggregate_data] returns for a metric is [np.mean]
    and [np.std] of the observations of that metric pooled over the
    records in their order: nothing of another metric enters the pool and
    no observation is dropped or repeated (each record being a dict, its
    keys are distinct). *)
Theorem X2_mean_std_of_pool (results : list record) (k : string)
    (m : dict (npfloat * npfloat)) (x s : npfloat)
    (Hkeys : Forall (fun r : record => NoDup (dict_keys r)) results)
    (Hm : aggregate_data results = Ok m)
    (Hk : dict_get k m = Some (x, s)) :
  np_mean (pool_of k results) = Ok x /\ np_std (pool_of k results) = Ok s.
Proof.
  unfold aggregate_data in Hm.
  apply bind_Ok_inv in Hm as (rd & Hrd & Hm).
  destruct (mean_std_get _ _ _ _ _ Hm Hk) as (p & Hp & Hx & Hs).
  pose proof (aggregate_results_pool k results Hkeys _ _ Hrd) as Hpool.
  rewrite Hp in Hpool. simpl in Hpool. now subst p.
Qed.

Lemma X2_mean_std_of_pool_witness :
  Forall (fun r : record => NoDup (dict_keys r)) pooled_results
  /\ aggregate_data pooled_results
     = Ok [("m", (fin 3, sqrt_fin 2)); ("n", (fin (5 # 2), sqrt_fin 0))]
  /\ dict_get "m" [("m", (fin 3, sqrt_fin 2)); ("n", (fin (5 # 2), sqrt_fin 0))]
     = Some (fin 3, sqrt_fin 2)
  /\ np_mean (pool_of "m" pooled_results) = Ok (fin 3)
  /\ np_std (pool_of "m" pooled_results) = Ok (sqrt_fin 2).
Proof.
  assert (Hkeys : Forall (fun r : record => NoDup (dict_keys r)) pooled_results).
  { repeat (apply Forall_cons_2; [simpl; nodup_keys|]). apply Forall_nil_2. }
  assert (Hm : aggregate_data pooled_results
               = Ok [("m", (fin 3, sqrt_fin 2)); ("n", (fin (5 # 2), sqrt_fin 0))])
    by (vm_compute; reflexivity).
  split; [exact Hkeys|]. split; [exact Hm|]. split; [reflexivity|].
  apply (X2_mean_std_of_pool pooled_results "m" _ (fin 3) (sqrt_fin 2)
           Hkeys Hm eq_refl).
Defined.

Lemma pool_of_app k rs rs' :
  pool_of k (rs ++ rs') = pool_of k rs ++ pool_of k rs'.
Proof. unfold pool_of. now rewrite map_app, concat_app. Qed.

(** C7: in plain aggregation over any collection of records, a record
    whose value for a metric is a list starting with a number gives the
    pool of that metric exactly one observation, that first element,
    between the observations of the records before it and those of the
    records after it; the metric is in the returned mapping, with the mean
    and deviation of that pool.  The rest of the list is not read. *)
Theorem C7_first_element_only (before after : list record) (r : record)
    (k : string) (n : num) (rest : list elem) (m : dict (npfloat * npfloat))
    (Hkeys : Forall (fun r : record => NoDup (dict_keys r))
               (before ++ r :: after))
    (Hk : dict_get k r = Some (VList (EScalar (SNum n) :: rest)))
    (Hm : aggregate_data (before ++ r :: after) = Ok m) :
  exists x s,
    dict_get k m = Some (x, s)
    /\ np_mean (pool_of k before ++ PNum (num_Q n) :: pool_of k after) = Ok x
    /\ np_std (pool_of k before ++ PNum (num_Q n) :: pool_of k after) = Ok s.
Proof.
  unfold aggregate_data in Hm.
  apply bind_Ok_inv in Hm as (rd & Hrd & Hm).
  destruct (dict_get k m) as [[x s]|] eqn:Hkm.
  - exists x, s. split; [reflexivity|].
    destruct (mean_std_get _ _ _ _ _ Hm Hkm) as (p & Hp & Hx & Hs).
    pose proof (aggregate_results_pool k _ Hkeys _ _ Hrd) as Hpool.
    rewrite Hp, pool_of_app in Hpool. simpl in Hpool.
    change (r :: after) with ([r] ++ after) in Hpool.
    rewrite pool_of_app in Hpool. unfold pool_of at 2 in Hpool.
    simpl in Hpool. rewrite Hk in Hpool. simpl in Hpool. now subst p.
  - apply (mean_std_absent _ _ k Hm) in Hkm.
    apply (aggregate_results_absent _ k _ _ Hrd) in Hkm as [_ Hskip].
    elim (Hskip r _ (in_elt r before after) Hk).
Qed.

Lemma C7_first_element_only_witness :
  Forall (fun r : record => NoDup (dict_keys r)) first_element_results
  /\ aggregate_data first_element_results
     = Ok [("a", (fin 2, sqrt_fin 1)); ("a_b", (fin 20, sqrt_fin 100));
           ("c", (fin 7, sqrt_fin 0))]
  /\ exists x s,
       dict_get "a_b" [("a", (fin 2, sqrt_fin 1));
                       ("a_b", (fin 20, sqrt_fin 100));
                       ("c", (fin 7, sqrt_fin 0))] = Some (x, s)
       /\ np_mean ([PNum 10] ++ [PNum 30]) = Ok x
       /\ np_std ([PNum 10] ++ [PNum 30]) = Ok s.
Proof.
  assert (Hkeys : Forall (fun r : record => NoDup (dict_keys r))
                    first_element_results).
  { repeat (apply Forall_cons_2; [simpl; nodup_keys|]). apply Forall_nil_2. }
  assert (Hm : aggregate_data first_element_results
               = Ok [("a", (fin 2, sqrt_fin 1)); ("a_b", (fin 20, sqrt_fin 100));
                     ("c", (fin 7, sqrt_fin 0))])
    by (vm_compute; reflexivity).
  split; [exact Hkeys|]. split; [exact Hm|].
  exact (C7_first_element_only
           [ [("a", VScalar (SNum (NInt 1)));
              ("a_b", VList [int_elem 10; int_elem 20])];
             [("c", VScalar (SNum (NInt 7)))] ]
           []
           [("a", VScalar (SNum (NInt 3)));
            ("a_b", VList [int_elem 30; int_elem 40; int_elem 50])]
           "a_b" (NInt 30) [int_elem 40; int_elem 50] _ Hkeys eq_refl Hm).
Defined.

(* --------------------------------------------------------------------- *)
(** *** The division of line 174                                          *)

Lemma true_divide_select (a b : list Q) :
  length a = length b ->
  true_divide (select a (nonzero_mask b)) (select b (nonzero_mask b))
  = Ok (quotients a b).
Proof.
  revert b. induction a as [|x a IH]; intros [|y b] Hlen; try discriminate;
    [reflexivity|].
  injection Hlen as Hlen. simpl.
  destruct (Qeq_bool y 0) eqn:Hy; simpl; [now apply IH|].
  rewrite Hy, (IH b Hlen). reflexivity.
Qed.

Lemma divide_masked_char v b :
  divide_masked v b
  = match v with
    | VArray _ a =>
        if Nat.eqb (length a) (length b)
        then Ok (VArray float64 (quotients a b)) else Raise IndexError
    | _ => Raise TypeError
    end.
Proof.
  destruct v as [s|l|dt a|]; try reflexivity.
  unfold divide_masked, getitem_mask, nonzero_mask. rewrite length_map.
  fold (nonzero_mask b).
  destruct (Nat.eqb_spec (length a) (length b)) as [Hlen|]; [|reflexivity].
  simpl. now rewrite (true_divide_select a b Hlen).
Qed.

(** X4: under an array baseline [b] for the group of [key], line 174
    replaces an array metric of the length of [b] by the quotients over the
    positions where [b] is not zero, and it never divides by zero; a
    metric that is an array of another length, or no array at all, is left
    as it is, the failure being swallowed by the [except]. *)
Theorem X4_masked_division (avg_by_type : dict series) (key : string)
    (r : record) (dt : dtype) (b : list Q) (v : value)
    (Havg : dict_get (data_type_of key) avg_by_type = Some (SerArray dt b))
    (Hkey : dict_get key r = Some v) :
  second_loop_body avg_by_type key tt r
  = (Ok tt,
     match v with
     | VArray _ a =>
         if Nat.eqb (length a) (length b)
         then dict_set key (VArray float64 (quotients a b)) r
         else r
     | _ => r
     end).
Proof.
  rewrite (second_loop_body_run _ _ _ _ Hkey), Havg, divide_masked_char.
  destruct v as [s|l|dt' a|]; try reflexivity.
  now destruct (Nat.eqb (length a) (length b)).
Qed.

Lemma X4_masked_division_witness :
  second_loop_body [("r", SerArray int64 [0; 2; 4]%Q)] "m_r" tt
    [("m_r", VArray int64 [10; 20; 30]%Q)]
  = (Ok tt, [("m_r", VArray float64 [20 / 2; 30 / 4]%Q)]).
Proof.
  exact (X4_masked_division [("r", SerArray int64 [0; 2; 4]%Q)] "m_r"
           [("m_r", VArray int64 [10; 20; 30]%Q)] int64 [0; 2; 4]%Q
           (VArray int64 [10; 20; 30]%Q) eq_refl eq_refl).
Defined.

(* --------------------------------------------------------------------- *)
(** *** The two loops as a map over the dict                              *)

Lemma first_loop_complete baseline ks :
  forall avg (r : record) avg' r',
    for_eachS ks (first_loop_body baseline) avg r = (Ok avg', r') ->
    (forall S, dict_get S avg <> None -> dict_get S avg' <> None)
    /\ (forall k, In k ks -> dict_get k r <> Some (VList []))
    /\ (forall k inner rest,
          In k ks -> dict_get k r = Some (VList (EList inner :: rest)) ->
          k = format_key baseline (data_type_of k) ->
          dict_get (data_type_of k) avg' <> None).
Proof.
  induction ks as [|k0 ks IH]; intros avg r avg' r' Hrun.
  - injection Hrun as <- <-. repeat split; [auto|intros k []|intros k ? ? []].
  - rewrite for_eachS_cons in Hrun.
    destruct (dict_get k0 r) as [v|] eqn:Hk0.
    2:{ unfold first_loop_body in Hrun. st_unfold. unfold getitem in Hrun.
        rewrite Hk0 in Hrun. discriminate. }
    rewrite (first_loop_body_run _ _ _ _ _ Hk0) in Hrun.
    destruct (is_list_of_list v) as [[inner0|]|e] eqn:Hll; [| |discriminate].
    + set (avg1 := if _ : bool then _ else avg) in Hrun.
      assert (Hmono : forall S, dict_get S avg <> None -> dict_get S avg1 <> None).
      { intros S HS. subst avg1. destruct (_ && _); [|exact HS].
        rewrite dict_get_set. now destruct (String.eqb (data_type_of k0) S). }
      destruct (IH _ _ _ _ Hrun) as (Hm & Hne & Hc).
      assert (Hget1 : forall k, k <> k0 ->
                dict_get k (dict_set k0 (conv v) r) = dict_get k r).
      { intros k Hk. apply dict_get_set_ne. congruence. }
      split; [auto|]. split.
      * intros k [<-|Hin].
        -- rewrite Hk0. intros [= ->]. discriminate.
        -- destruct (string_dec k k0) as [->|Hk].
           ++ rewrite Hk0. intros [= ->]. discriminate.
           ++ rewrite <- (Hget1 k Hk). now apply Hne.
      * intros k inner rest Hin Hk Hfmt.
        destruct (string_dec k k0) as [->|Hne0].
        -- apply Hm. subst avg1.
           destruct (dict_mem (data_type_of k0) avg) eqn:Hmem; simpl.
           ++ unfold dict_mem in Hmem.
              now destruct (dict_get (data_type_of k0) avg).
           ++ rewrite <- Hfmt, String.eqb_refl, dict_get_set_eq. discriminate.
        -- destruct Hin as [->|Hin]; [contradiction|].
           apply (Hc k inner rest Hin); [|exact Hfmt].
           now rewrite (Hget1 k Hne0).
    + destruct (IH _ _ _ _ Hrun) as (Hm & Hne & Hc).
      split; [exact Hm|]. split.
      * intros k [<-|Hin]; [|now apply Hne].
        rewrite Hk0. intros [= ->]. discriminate.
      * intros k inner rest [<-|Hin] Hk Hfmt; [|now apply (Hc k inner rest)].
        rewrite Hk0 in Hk. injection Hk as ->. discriminate.
Qed.

Lemma second_loop_exact avg ks :
  (forall S s, dict_get S avg = Some s -> is_array_series s) ->
  NoDup ks ->
  forall (r : record) res r',
    (forall k, In k ks -> dict_get k r <> None) ->
    for_eachS ks (second_loop_body avg) tt r = (res, r') ->
    forall k,
      dict_get k r'
      = if in_dec string_dec k ks
        then (fun v => match dict_get (data_type_of k) avg with
                       | Some (SerArray _ b) =>
                           match divide_masked v b with
                           | Ok v' => v'
                           | Raise _ => v
                           end
                       | _ => v
                       end) <$> dict_get k r
        else dict_get k r.
Proof.
  intros Harr. induction 1 as [|k0 ks Hk0 Hks IH]; intros r res r' Hpre Hrun k.
  - injection Hrun as <- <-. reflexivity.
  - rewrite for_eachS_cons in Hrun.
    destruct (dict_get k0 r) as [v|] eqn:Hget;
      [|now elim (Hpre k0 (or_introl eq_refl))].
    rewrite (second_loop_body_run _ _ _ _ Hget) in Hrun.
    set (step := fun (k : string) (v : value) =>
                   match dict_get (data_type_of k) avg with
                   | Some (SerArray _ b) =>
                       match divide_masked v b with
                       | Ok v' => v'
                       | Raise _ => v
                       end
                   | _ => v
                   end).
    assert (Hstep : exists r1,
               for_eachS ks (second_loop_body avg) tt r1 = (res, r')
               /\ forall k, dict_get k r1
                            = if String.eqb k0 k then Some (step k0 v)
                              else dict_get k r).
    { unfold step.
      destruct (dict_get (data_type_of k0) avg) as [[dt b|d]|] eqn:Havg.
      - destruct (divide_masked v b) as [v'|e].
        + exists (dict_set k0 v' r). split; [exact Hrun|].
          intros k'. apply dict_get_set.
        + exists r. split; [exact Hrun|]. intros k'.
          destruct (String.eqb_spec k0 k') as [<-|]; [exact Hget|reflexivity].
      - now apply Harr in Havg.
      - exists r. split; [exact Hrun|]. intros k'.
        destruct (String.eqb_spec k0 k') as [<-|]; [exact Hget|reflexivity]. }
    destruct Hstep as (r1 & Hrun1 & Hget1).
    assert (Hpre1 : forall k, In k ks -> dict_get k r1 <> None).
    { intros k' Hin. rewrite Hget1.
      destruct (String.eqb k0 k'); [discriminate|apply Hpre; now right]. }
    rewrite (IH _ _ _ Hpre1 Hrun1 k), Hget1.
    destruct (String.eqb_spec k0 k) as [->|Hne].
    + destruct (in_dec string_dec k ks) as [Hin|_];
        [now elim Hk0; apply list_elem_of_In|].
      destruct (in_dec string_dec k (k :: ks)) as [_|Hn];
        [now rewrite Hget|elim Hn; now left].
    + destruct (in_dec string_dec k ks) as [Hin|Hnin],
        (in_dec string_dec k (k0 :: ks)) as [Hin'|Hnin'];
        [reflexivity|elim Hnin'; now right
        |destruct Hin' as [?|?]; contradiction|reflexivity].
Qed.

Lemma dict_ext {V : Type} (d d' : dict V) :
  dict_keys d = dict_keys d' -> NoDup (dict_keys d) ->
  (forall k, dict_get k d = dict_get k d') -> d = d'.
Proof.
  revert d'. induction d as [|[k v] d IH]; intros [|[k' v'] d'] Hkeys Hnd Hget;
    try discriminate; [reflexivity|].
  simpl in Hkeys. injection Hkeys as <- Hkeys.
  simpl in Hnd. apply NoDup_cons in Hnd as [Hk Hnd].
  pose proof (Hget k) as Hk0. simpl in Hk0. rewrite String.eqb_refl in Hk0.
  injection Hk0 as <-. f_equal. apply IH; [exact Hkeys|exact Hnd|].
  intros k0. specialize (Hget k0). simpl in Hget.
  destruct (String.eqb_spec k k0) as [Heq|]; [subst k0|exact Hget].
  assert (Hn : dict_get k d = None).
  { destruct (dict_get k d) eqn:E; [|reflexivity].
    elim Hk. apply list_elem_of_In, dict_get_In. now rewrite E. }
  assert (Hn' : dict_get k d' = None).
  { destruct (dict_get k d') eqn:E; [|reflexivity].
    elim Hk. rewrite Hkeys. apply list_elem_of_In, dict_get_In. now rewrite E. }
  now rewrite Hn, Hn'.
Qed.

Lemma normalized_record_get baseline (r r0 : record) k :
  dict_get k (map (fun kv => (fst kv, normalized_value baseline r0 (fst kv)
                                        (snd kv))) r)
  = normalized_value baseline r0 k <$> dict_get k r.
Proof.
  induction r as [|[k' v] r IH]; [reflexivity|].
  simpl. destruct (String.eqb_spec k' k) as [->|]; [reflexivity|exact IH].
Qed.

Lemma normalized_record_keys baseline (r : record) :
  dict_keys (normalized_record baseline r) = dict_keys r.
Proof.
  unfold dict_keys, normalized_record. rewrite map_map. now apply map_ext.
Qed.

Lemma first_loop_baseline_series baseline (r : record) avg r1 :
  for_eachS (dict_keys r) (first_loop_body baseline) [] r = (Ok avg, r1) ->
  forall S,
    match baseline_series baseline r S with
    | Some b => exists dt, dict_get S avg = Some (SerArray dt b)
    | None => dict_get S avg = None
    end.
Proof.
  intros Hrun S.
  destruct (first_loop_complete _ _ _ _ _ _ Hrun) as (_ & _ & Hc).
  apply first_loop_all_keys in Hrun as (_ & _ & Havg).
  destruct (dict_get S avg) as [s|] eqn:Hs.
  - destruct (Havg S s Hs) as (inner & rest & HS & Hget & ->).
    unfold baseline_series. rewrite Hget, HS, String.eqb_refl. now eexists.
  - unfold baseline_series.
    destruct (dict_get (format_key baseline S) r)
      as [[s|[|[s|inner] rest]|dt a|]|] eqn:Hget; try reflexivity.
    destruct (String.eqb_spec (data_type_of (format_key baseline S)) S)
      as [HS|]; [|reflexivity].
    exfalso. apply (Hc (format_key baseline S) inner rest).
    + apply dict_get_In. now rewrite Hget.
    + exact Hget.
    + now rewrite HS.
    + now rewrite HS.
Qed.

Lemma normalize_is_map (baseline : option string) (r : record) :
  NoDup (dict_keys r) ->
  (forall k, dict_get k r <> Some (VList [])) ->
  normalize_data_point baseline r = (Ok tt, normalized_record baseline r).
Proof.
  intros Hkeys Hne. rewrite normalize_data_point_run.
  destruct (for_eachS _ _ _ r) as [[avg|e] r1] eqn:Hfirst.
  2:{ destruct (first_loop_spec _ _ _ _ _ _ (keys_present r) Hfirst)
        as (_ & _ & _ & k & _ & Hk). now elim (Hne k). }
  pose proof (first_loop_baseline_series _ _ _ _ Hfirst) as Hseries.
  apply first_loop_all_keys in Hfirst as (Hkeys1 & Hget1 & Havg).
  destruct baseline as [b|].
  - destruct (for_eachS _ _ tt r1) as [res2 r2] eqn:Hsecond.
    assert (Harr : forall S s, dict_get S avg = Some s -> is_array_series s).
    { intros S s Hs. now destruct (Havg S s Hs) as (? & ? & _ & _ & ->). }
    assert (Hnd1 : NoDup (dict_keys r1)) by (rewrite Hkeys1; exact Hkeys).
    pose proof (second_loop_exact avg _ Harr Hnd1 _ _ _
                  (keys_present r1) Hsecond) as Hget2.
    apply (second_loop_spec (fun _ _ => True)) in Hsecond
      as (-> & Hkeys2 & _); auto; [|intros k Hin; now apply keys_present].
    f_equal. apply dict_ext.
    + rewrite Hkeys2, Hkeys1. symmetry. apply normalized_record_keys.
    + now rewrite Hkeys2, Hkeys1.
    + intros k. unfold normalized_record.
      rewrite Hget2, Hget1, normalized_record_get.
      destruct (dict_get k r) as [v|] eqn:Hk;
        [|now destruct (in_dec string_dec k (dict_keys r1))].
      destruct (in_dec string_dec k (dict_keys r1)) as [_|Hn].
      2:{ elim Hn. rewrite Hkeys1. apply dict_get_In. now rewrite Hk. }
      simpl. f_equal. unfold normalized_value.
      specialize (Hseries (data_type_of k)).
      destruct (baseline_series (Some b) r (data_type_of k)) as [bb|].
      * destruct Hseries as [dt ->]. rewrite divide_masked_char.
        destruct (conv v) as [s|l|dt' a|]; try reflexivity.
        now destruct (Nat.eqb (length a) (length bb)).
      * rewrite Hseries. now destruct (conv v).
  - f_equal. apply dict_ext.
    + rewrite Hkeys1. symmetry. apply normalized_record_keys.
    + now rewrite Hkeys1.
    + intros k. unfold normalized_record.
      now rewrite Hget1, normalized_record_get.
Qed.

(** X5: on a dict with distinct keys and no empty list, the two loops
    over a data point return, and they are a map over the dict: a list of
    list becomes the array of its inner list; then, under a baseline, an
    array of the length of the baseline series of its suffix group becomes
    the quotients over the positions where the series is not zero; every
    other value, and the keys and their order, stay as they are. *)
Theorem X5_loops_are_a_map (baseline : option string) (r : record)
    (Hkeys : NoDup (dict_keys r))
    (Hne : forall k, dict_get k r <> Some (VList [])) :
  normalize_data_point baseline r = (Ok tt, normalized_record baseline r).
Proof. now apply normalize_is_map. Qed.

Lemma X5_loops_are_a_map_witness :
  NoDup (dict_keys zero_filter_point)
  /\ (forall k, dict_get k zero_filter_point <> Some (VList []))
  /\ normalize_data_point (Some "b") zero_filter_point
     = (Ok tt, normalized_record (Some "b") zero_filter_point).
Proof.
  assert (Hkeys : NoDup (dict_keys zero_filter_point)) by (simpl; nodup_keys).
  assert (Hne : forall k, dict_get k zero_filter_point <> Some (VList [])).
  { intros k. unfold zero_filter_point. cbn [dict_get].
    destruct (String.eqb "b_r" k); [discriminate|].
    destruct (String.eqb "m_r" k); discriminate. }
  split; [exact Hkeys|]. split; [exact Hne|].
  apply (X5_loops_are_a_map (Some "b") zero_filter_point Hkeys Hne).
Defined.

(* --------------------------------------------------------------------- *)
(** *** The heap is not observable                                        *)

Lemma first_loop_fixed baseline ks :
  forall avg (r : record),
    (forall k, In k ks ->
       exists v, dict_get k r = Some v /\ is_list_of_list v = Ok None) ->
    for_eachS ks (first_loop_body baseline) avg r = (Ok avg, r).
Proof.
  induction ks as [|k0 ks IH]; intros avg r H; [reflexivity|].
  rewrite for_eachS_cons.
  destruct (H k0 (or_introl eq_refl)) as (v & Hv & Hll).
  rewrite (first_loop_body_run _ _ _ _ _ Hv), Hll.
  apply IH. intros; apply H; now right.
Qed.

Lemma second_loop_no_avg ks :
  forall r : record,
    (forall k, In k ks -> dict_get k r <> None) ->
    for_eachS ks (second_loop_body []) tt r = (Ok tt, r).
Proof.
  induction ks as [|k0 ks IH]; intros r H; [reflexivity|].
  rewrite for_eachS_cons.
  destruct (dict_get k0 r) as [v|] eqn:Hv;
    [|now elim (H k0 (or_introl eq_refl))].
  rewrite (second_loop_body_run _ _ _ _ Hv). simpl.
  apply IH. intros; apply H; now right.
Qed.

Lemma normalize_fixed baseline (r : record) :
  (forall k v, dict_get k r = Some v -> is_list_of_list v = Ok None) ->
  normalize_data_point baseline r = (Ok tt, r).
Proof.
  intros H. rewrite normalize_data_point_run, first_loop_fixed.
  - destruct baseline; [|reflexivity].
    apply second_loop_no_avg. intros k Hin. now apply keys_present.
  - intros k Hin. destruct (dict_get k r) as [v|] eqn:Hv.
    + exists v. split; [reflexivity|]. eauto.
    + now elim (keys_present r k Hin).
Qed.

Lemma conv_not_list_of_list_any v :
  v <> VList [] -> is_list_of_list (conv v) = Ok None.
Proof. destruct v as [s|[|[s|inner] l]|dt a|]; simpl; congruence. Qed.

Lemma normalize_result_fixed baseline (r r' : record) :
  normalize_data_point baseline r = (Ok tt, r') ->
  forall k v, dict_get k r' = Some v -> is_list_of_list v = Ok None.
Proof.
  rewrite normalize_data_point_run.
  destruct (for_eachS _ _ _ r) as [[avg|e] r1] eqn:Hfirst; [|discriminate].
  destruct (first_loop_complete _ _ _ _ _ _ Hfirst) as (_ & Hne & _).
  apply first_loop_all_keys in Hfirst as (Hkeys1 & Hget1 & Havg).
  assert (H1 : forall k v, dict_get k r1 = Some v ->
                           is_list_of_list v = Ok None).
  { intros k v. rewrite Hget1. destruct (dict_get k r) as [w|] eqn:Hw;
      [|discriminate].
    simpl. intros [= <-]. apply conv_not_list_of_list_any. intros ->.
    apply (Hne k); [|exact Hw]. apply dict_get_In. now rewrite Hw. }
  destruct baseline as [b|]; [|now intros [= <-]].
  intros Hsecond k v Hv.
  apply (second_loop_spec
           (fun u u' => is_list_of_list u = Ok None ->
                        is_list_of_list u' = Ok None))
    in Hsecond as (_ & _ & Hrel).
  - specialize (Hrel k). rewrite Hv in Hrel.
    inversion Hrel as [w ? Hw Heq|]; subst. symmetry in Heq. eauto.
  - auto.
  - auto.
  - intros S s Hs. now destruct (Havg S s Hs) as (? & ? & _ & _ & ->).
  - intros S dt bb u u' _ Hdiv _.
    now destruct (divide_masked_array _ _ _ Hdiv) as (? & ? & ? & _ & ->).
  - intros k0 Hin. now apply keys_present.
Qed.

Lemma normalize_idem baseline (r r' : record) :
  normalize_data_point baseline r = (Ok tt, r') ->
  normalize_data_point baseline r' = (Ok tt, r').
Proof.
  intros H. apply normalize_fixed. now apply (normalize_result_fixed _ _ _ H).
Qed.

Lemma normalize_loop_exact baseline (o : loc -> record) ls :
  forall (h : heap) res h',
    (forall l, In l ls ->
       h !! l = Some (o l)
       \/ (fst (normalize_data_point baseline (o l)) = Ok tt
           /\ h !! l = Some (snd (normalize_data_point baseline (o l))))) ->
    for_eachS ls
      (fun data_point _ => at_loc data_point (normalize_data_point baseline))
      tt h = (res, h') ->
    res = match normalize_records baseline (map o ls) with
          | Ok _ => Ok tt
          | Raise e => Raise e
          end
    /\ (forall l, ~ In l ls -> h' !! l = h !! l)
    /\ (res = Ok tt ->
        forall l, In l ls ->
          h' !! l = Some (snd (normalize_data_point baseline (o l)))).
Proof.
  induction ls as [|l ls IH]; intros h res h' Hpre Hrun.
  - injection Hrun as <- <-. repeat split. intros _ l [].
  - rewrite for_eachS_cons, at_loc_run in Hrun. simpl.
    destruct (normalize_data_point baseline (o l)) as [res1 r1] eqn:Hnorm.
    assert (Hstep : exists c, h !! l = Some c
              /\ match res1 with
                 | Ok _ => normalize_data_point baseline c = (Ok tt, r1)
                 | Raise _ => c = o l
                 end).
    { destruct (Hpre l (or_introl eq_refl)) as [Hl|[Hok Hl]].
      - exists (o l). split; [exact Hl|]. rewrite Hnorm. now destruct res1 as [[]|].
      - rewrite Hnorm in Hok, Hl. simpl in Hok, Hl. subst res1.
        exists r1. split; [exact Hl|]. now apply (normalize_idem _ _ _ Hnorm). }
    destruct Hstep as (c & Hc & Hres1). rewrite Hc in Hrun.
    assert (Hlt : l < length h) by (eapply lookup_lt_Some; eauto).
    assert (Hframe1 : forall r0 l0, ~ In l0 (l :: ls) ->
              <[l := r0]> h !! l0 = h !! l0).
    { intros r0 l0 Hl0. apply list_lookup_insert_ne. intros ->.
      apply Hl0. now left. }
    destruct res1 as [[]|e].
    + rewrite Hres1 in Hrun. simpl in Hrun.
      assert (Hl1 : <[l := r1]> h !! l = Some r1)
        by now apply list_lookup_insert_eq.
      apply IH in Hrun as (Hres & Hframe & Hall).
      * split; [|split].
        -- rewrite Hres. now destruct (normalize_records baseline (map o ls)).
        -- intros l0 Hl0. rewrite Hframe by (intros ?; apply Hl0; now right).
           now apply Hframe1.
        -- intros Hok l0 [<-|Hin]; [|now apply Hall].
           rewrite Hnorm. simpl.
           destruct (in_dec Nat.eq_dec l ls) as [Hin|Hnin].
           ++ rewrite (Hall Hok l Hin). now rewrite Hnorm.
           ++ now rewrite (Hframe l Hnin).
      * intros l0 Hin. destruct (Nat.eq_dec l l0) as [<-|Hne].
        -- right. rewrite Hnorm. now split.
        -- rewrite list_lookup_insert_ne by exact Hne. apply Hpre. now right.
    + subst c. rewrite Hnorm in Hrun. simpl in Hrun. injection Hrun as <- <-.
      split; [reflexivity|]. split; [now apply Hframe1|discriminate].
Qed.

Lemma normalize_records_ok baseline rs rs' :
  normalize_records baseline rs = Ok rs' ->
  rs' = map (fun r => snd (normalize_data_point baseline r)) rs.
Proof.
  revert rs'. induction rs as [|r rs IH]; simpl; intros rs' H.
  - now injection H as <-.
  - destruct (normalize_data_point baseline r) as [[[]|e] r1]; [|discriminate].
    apply bind_Ok_inv in H as (rs'' & Hrs & H). injection H as <-.
    simpl. f_equal. now apply IH.
Qed.

Lemma normalize_refines (results : list loc) (baseline : option string)
    (h : heap) (rs : list record) :
  Forall2 (fun l r => h !! l = Some r) results rs ->
  fst (aggregate_normalize_data results baseline h)
  = (rs' ← normalize_records baseline rs; aggregate_data rs').
Proof.
  intros Hrs.
  assert (Hval : Forall (fun l => l < length h) results).
  { clear -Hrs. induction Hrs as [|l r ? ? Hl _ IH]; constructor;
      [eapply lookup_lt_Some; eauto|exact IH]. }
  unfold aggregate_normalize_data, mbind at 1 2, ST_bind.
  destruct (deepcopy results [] h) as [res1 h1] eqn:Hcopy.
  apply (deepcopy_spec (length h)) in Hcopy as (ls & ext & -> & -> & Hls);
    [|reflexivity|exact Hval|discriminate].
  set (o := fun l' : loc =>
              match (h ++ ext) !! l' return record with
              | Some r => r
              | None => []
              end).
  assert (Hmap : map o ls = rs).
  { clear -Hls Hrs. subst o. revert rs Hrs.
    induction Hls as [|l l' ? ? (_ & _ & Hl) _ IH]; intros rs Hrs;
      inversion Hrs as [|? r ? rs0 Hr Hrs0]; subst; [reflexivity|].
    cbn [map]. rewrite Hl, Hr. f_equal. now apply IH. }
  assert (Hpre : forall l', In l' ls -> (h ++ ext) !! l' = Some (o l')).
  { intros l' Hin.
    destruct (Forall2_In_r _ _ _ _ Hls Hin) as (l & Hl & Hlt & _ & Heq).
    subst o. simpl. rewrite Heq.
    destruct (lookup_lt_is_Some_2 h l Hlt) as [r ->]. reflexivity. }
  destruct (for_eachS ls _ tt (h ++ ext)) as [res2 h2] eqn:Hloop.
  apply (normalize_loop_exact baseline o) in Hloop as (Hres & _ & Hall);
    [|intros l' Hin; left; now apply Hpre].
  rewrite Hmap in Hres.
  destruct (normalize_records baseline rs) as [rs'|e] eqn:Hnr; subst res2;
    [|reflexivity].
  rewrite (aggregate_data_at_run ls h2 rs'); [reflexivity|].
  apply normalize_records_ok in Hnr. subst rs' rs.
  specialize (Hall eq_refl). clear -Hall.
  induction ls as [|l' ls IH]; constructor.
  - apply Hall. now left.
  - apply IH. intros; apply Hall; now right.
Qed.

(** X6: the heap, the deep copy and the sharing of dicts are not
    observable.  What [aggregate_normalize_data] returns or raises is a
    function of the contents of the records alone: each record is
    normalized by itself, the first failure in the order of the list is
    raised, and the normalized records go to [aggregate_data].  A dict
    that occurs twice in [results] is normalized once, with the effect of
    two equal dicts. *)
Theorem X6_function_of_the_contents (results : list loc)
    (baseline : option string) (h : heap) (rs : list record)
    (Hrs : Forall2 (fun l r => h !! l = Some r) results rs) :
  fst (aggregate_normalize_data results baseline h)
  = (rs' ← normalize_records baseline rs; aggregate_data rs').
Proof. now apply normalize_refines. Qed.

Lemma X6_function_of_the_contents_witness :
  Forall2 (fun l r => ones_heap !! l = Some r) [0; 0; 1]
    [ [("b_r", VList [EList [NInt 1; NInt 1; NInt 1]]);
       ("m_r", VList [EList [NInt 10; NInt 20; NInt 30]]);
       ("x_r", VScalar (SNum (NInt 5)))];
      [("b_r", VList [EList [NInt 1; NInt 1; NInt 1]]);
       ("m_r", VList [EList [NInt 10; NInt 20; NInt 30]]);
       ("x_r", VScalar (SNum (NInt 5)))];
      [("b_r", VList [EList [NFloat 1; NFloat 1]]);
       ("m_r", VList [EList [NFloat 2.5; NInt 4]]);
       ("s_r", VArray int64 [7%Q])] ]
  /\ fst (aggregate_normalize_data [0; 0; 1] (Some "b") ones_heap)
     = (rs' ← normalize_records (Some "b")
                [ [("b_r", VList [EList [NInt 1; NInt 1; NInt 1]]);
                   ("m_r", VList [EList [NInt 10; NInt 20; NInt 30]]);
                   ("x_r", VScalar (SNum (NInt 5)))];
                  [("b_r", VList [EList [NInt 1; NInt 1; NInt 1]]);
                   ("m_r", VList [EList [NInt 10; NInt 20; NInt 30]]);
                   ("x_r", VScalar (SNum (NInt 5)))];
                  [("b_r", VList [EList [NFloat 1; NFloat 1]]);
                   ("m_r", VList [EList [NFloat 2.5; NInt 4]]);
                   ("s_r", VArray int64 [7%Q])] ];
        aggregate_data rs').
Proof.
  assert (H : Forall2 (fun l r => ones_heap !! l = Some r) [0; 0; 1]
                (map (fun l => default [] (ones_heap !! l)) [0; 0; 1]))
    by (repeat constructor).
  split; [exact H|].
  exact (X6_function_of_the_contents [0; 0; 1] (Some "b") ones_heap _ H).
Defined.

(* --------------------------------------------------------------------- *)
(** *** What a baseline cannot change                                     *)

Lemma add_obs_cons k obs k' p (rd : dict (list pelem)) :
  add_obs k obs ((k', p) :: rd)
  = if String.eqb k' k then (k', p ++ obs) :: rd
    else (k', p) :: add_obs k obs rd.
Proof.
  unfold add_obs, init_pool, extend_pool, dict_mem. simpl.
  destruct (String.eqb_spec k' k) as [->|Hne].
  - simpl. now rewrite String.eqb_refl.
  - destruct (dict_get k rd) as [q|] eqn:Hq; simpl.
    + destruct (String.eqb_spec k' k); [contradiction|]. now rewrite Hq.
    + destruct (String.eqb_spec k' k); [contradiction|].
      rewrite dict_get_set_eq. simpl.
      now destruct (String.eqb_spec k' k).
Qed.

Lemma add_obs_nil k obs : add_obs k obs [] = [(k, obs)].
Proof.
  unfold add_obs, init_pool, extend_pool, dict_mem. simpl.
  now rewrite !String.eqb_refl.
Qed.

Lemma add_obs_sim k obs obs' rd rd' :
  sim rd rd' -> (numeric obs <-> numeric obs') ->
  sim (add_obs k obs rd) (add_obs k obs' rd').
Proof.
  intros Hsim Hobs.
  induction Hsim as [|[k1 p] [k2 p'] rd rd' [Hk Hp] Hrest IH].
  - rewrite !add_obs_nil. repeat constructor; simpl; tauto.
  - simpl in Hk, Hp. subst k2. rewrite !add_obs_cons.
    destruct (String.eqb k1 k); constructor; simpl; auto.
    split; [reflexivity|]. unfold numeric. rewrite !Forall_app.
    unfold numeric in Hp, Hobs. tauto.
Qed.

Lemma sim_refl rd : sim rd rd.
Proof. induction rd; constructor; [tauto|assumption]. Qed.

Lemma aggregate_value_cases k v :
  (exists e, forall rd, aggregate_value k v rd = Raise e)
  \/ (forall rd, aggregate_value k v rd = Ok rd)
  \/ (exists obs, forall rd, aggregate_value k v rd = Ok (add_obs k obs rd)).
Proof.
  destruct v as [[n|s| |b]|[|[[n|s| |b]|inner] l]|dt a|]; simpl; eauto.
Qed.

Lemma aggregate_value_array k dt a rd :
  aggregate_value k (VArray dt a) rd = Ok (add_obs k (map PNum a) rd).
Proof. reflexivity. Qed.

Lemma numeric_map_PNum (a : list Q) : numeric (map PNum a).
Proof. apply Forall_map, Forall_forall. intros; now eexists. Qed.

Lemma aggregate_value_sim k v v' rd rd' :
  shape_rel v v' -> sim rd rd' ->
  match aggregate_value k v rd, aggregate_value k v' rd' with
  | Ok a, Ok a' => sim a a'
  | Raise _, Raise _ => True
  | _, _ => False
  end.
Proof.
  intros [->|[(dt & a & ->) Hv]] Hsim.
  - destruct (aggregate_value_cases k v) as [[e H]|[H|[obs H]]];
      rewrite !H; [exact I|exact Hsim|].
    now apply add_obs_sim.
  - rewrite aggregate_value_array.
    destruct v as [s|[|[s|inner] l]|dt' a'|]; try destruct Hv; simpl.
    + apply add_obs_sim; [exact Hsim|].
      split; intros _; [apply numeric_map_PNum|].
      apply Forall_map, Forall_forall. intros; now eexists.
    + apply add_obs_sim; [exact Hsim|].
      split; intros _; apply numeric_map_PNum.
Qed.

Lemma aggregate_record_sim (r r' : record) rd rd' :
  rec_shape r r' -> sim rd rd' ->
  match aggregate_record r rd, aggregate_record r' rd' with
  | Ok a, Ok a' => sim a a'
  | Raise _, Raise _ => True
  | _, _ => False
  end.
Proof.
  intros [Hkeys Hval]. unfold aggregate_record. rewrite <- Hkeys.
  generalize (dict_keys r) as ks. intros ks. revert rd rd'.
  induction ks as [|k ks IH]; intros rd rd' Hsim; [exact Hsim|].
  simpl. unfold getitem.
  destruct (Hval k) as [v v' Hv|]; simpl; [|exact I].
  pose proof (aggregate_value_sim k v v' rd rd' Hv Hsim) as Hstep.
  destruct (aggregate_value k v rd), (aggregate_value k v' rd');
    simpl; try easy.
  now apply IH.
Qed.

Lemma aggregate_results_sim rs rs' :
  Forall2 rec_shape rs rs' ->
  forall rd rd', sim rd rd' ->
    match for_each rs aggregate_record rd, for_each rs' aggregate_record rd' with
    | Ok a, Ok a' => sim a a'
    | Raise _, Raise _ => True
    | _, _ => False
    end.
Proof.
  induction 1 as [|r r' rs rs' Hr _ IH]; intros rd rd' Hsim; [exact Hsim|].
  simpl. pose proof (aggregate_record_sim r r' rd rd' Hr Hsim) as Hstep.
  destruct (aggregate_record r rd), (aggregate_record r' rd');
    simpl; try easy.
  now apply IH.
Qed.

Lemma pool_numbers_Some p qs : pool_numbers p = Some qs -> numeric p.
Proof.
  revert qs. induction p as [|[q|s] p IH]; simpl; intros qs H.
  - constructor.
  - destruct (pool_numbers p) as [qs'|]; [|discriminate].
    constructor; [now eexists|]. now apply (IH qs').
  - discriminate.
Qed.

Lemma np_mean_std_numeric p :
  match np_mean p, np_std p with
  | Ok _, Ok _ => numeric p
  | Raise _, Raise _ => ~ numeric p
  | _, _ => False
  end.
Proof.
  unfold np_mean, np_std. destruct (pool_numbers p) as [qs|] eqn:Hp.
  - apply pool_numbers_Some in Hp. now destruct qs.
  - intros H. destruct (pool_numbers_numeric p H) as [qs Hqs]. congruence.
Qed.

Lemma mean_std_sim rd rd' :
  sim rd rd' ->
  match mean_std rd, mean_std rd' with
  | Ok m, Ok m' => dict_keys m = dict_keys m'
  | Raise _, Raise _ => True
  | _, _ => False
  end.
Proof.
  induction 1 as [|[k p] [k' p'] rd rd' [Hk Hp] _ IH]; [reflexivity|].
  simpl in Hk, Hp. subst k'. simpl.
  pose proof (np_mean_std_numeric p) as H1.
  pose proof (np_mean_std_numeric p') as H2.
  destruct (np_mean p), (np_std p), (np_mean p'), (np_std p');
    simpl; try tauto.
  destruct (mean_std rd), (mean_std rd'); simpl; try easy.
  simpl. now f_equal.
Qed.

Lemma shape_rel_refl v : shape_rel v v.
Proof. now left. Qed.

Lemma shape_rel_trans u v w : shape_rel u v -> shape_rel v w -> shape_rel u w.
Proof.
  intros [->|[(dt & a & ->) Hu]] [->|[Hw Hv]].
  - now left.
  - right. now split.
  - right. split; [eauto|exact Hu].
  - right. split; [exact Hw|exact Hu].
Qed.

Lemma shape_rel_conv v : shape_rel v (conv v).
Proof.
  destruct v as [s|[|[s|inner] l]|dt a|]; try (now left).
  right. split; [simpl; eauto|exact I].
Qed.

Lemma normalize_rec_shape baseline (r r' : record) :
  normalize_data_point baseline r = (Ok tt, r') -> rec_shape r r'.
Proof.
  rewrite normalize_data_point_run.
  destruct (for_eachS _ _ _ r) as [[avg|e] r1] eqn:Hfirst; [|discriminate].
  apply first_loop_all_keys in Hfirst as (Hkeys1 & Hget1 & Havg).
  assert (H1 : forall k, option_Forall2 shape_rel (dict_get k r) (dict_get k r1)).
  { intros k. rewrite Hget1. destruct (dict_get k r); constructor.
    apply shape_rel_conv. }
  destruct baseline as [b|]; [|intros [= <-]; now split].
  intros Hsecond.
  apply (second_loop_spec shape_rel) in Hsecond as (_ & Hkeys2 & Hrel).
  - split; [congruence|]. intros k. specialize (H1 k). specialize (Hrel k).
    destruct H1; inversion Hrel; subst; constructor.
    eapply shape_rel_trans; eauto.
  - apply shape_rel_refl.
  - apply shape_rel_trans.
  - intros S s Hs. now destruct (Havg S s Hs) as (? & ? & _ & _ & ->).
  - intros S dt bb u u' _ Hdiv.
    destruct (divide_masked_array _ _ _ Hdiv) as (dt' & a & a' & -> & ->).
    right. split; [eauto|exact I].
  - intros k Hin. now apply keys_present.
Qed.

Lemma normalize_raise_empty baseline (r r' : record) e :
  normalize_data_point baseline r = (Raise e, r') ->
  exists k, dict_get k r = Some (VList []).
Proof.
  rewrite normalize_data_point_run.
  destruct (for_eachS _ _ _ r) as [[avg|e1] r1] eqn:Hfirst.
  - apply first_loop_all_keys in Hfirst as (Hkeys1 & Hget1 & Havg).
    destruct baseline as [b|]; [|discriminate].
    intros Hsecond.
    apply (second_loop_spec (fun _ _ => True)) in Hsecond as (Hres & _);
      auto; [discriminate| |intros k Hin; now apply keys_present].
    intros S s Hs. now destruct (Havg S s Hs) as (? & ? & _ & _ & ->).
  - intros _.
    destruct (first_loop_spec _ _ _ _ _ _ (keys_present r) Hfirst)
      as (_ & _ & _ & k & _ & Hk).
    now exists k.
Qed.

Lemma normalize_records_shape baseline rs rs' :
  normalize_records baseline rs = Ok rs' -> Forall2 rec_shape rs rs'.
Proof.
  revert rs'. induction rs as [|r rs IH]; simpl; intros rs' H.
  - injection H as <-. constructor.
  - destruct (normalize_data_point baseline r) as [[[]|e] r1] eqn:Hn;
      [|discriminate].
    apply bind_Ok_inv in H as (rs'' & Hrs & H). injection H as <-.
    constructor; [now apply (normalize_rec_shape baseline)|now apply IH].
Qed.

Lemma normalize_records_raise baseline rs e :
  normalize_records baseline rs = Raise e ->
  exists r, In r rs /\ forall rd, exists e', aggregate_record r rd = Raise e'.
Proof.
  induction rs as [|r rs IH]; simpl; intros H; [discriminate|].
  destruct (normalize_data_point baseline r) as [[[]|e1] r1] eqn:Hn.
  - destruct (normalize_records baseline rs) as [rs'|e2]; [discriminate|].
    simpl in H. destruct (IH H) as (r0 & Hin & Hbad).
    exists r0. split; [now right|exact Hbad].
  - apply normalize_raise_empty in Hn as [k Hk].
    exists r. split; [now left|]. now apply aggregate_record_empty_list with (k := k).
Qed.

(** X7: whatever the baseline, normalization changes numbers only.
    [aggregate_normalize_data] returns a mapping exactly when
    [aggregate_data] returns one on the same records, and the two mappings
    have the same metric names in the same order. *)
Theorem X7_same_outcome_same_names (results : list loc)
    (baseline : option string) (h : heap) (rs : list record)
    (Hrs : Forall2 (fun l r => h !! l = Some r) results rs) :
  match fst (aggregate_normalize_data results baseline h), aggregate_data rs with
  | Ok m, Ok m' => dict_keys m = dict_keys m'
  | Raise _, Raise _ => True
  | _, _ => False
  end.
Proof.
  rewrite (normalize_refines _ _ _ _ Hrs).
  destruct (normalize_records baseline rs) as [rs'|e] eqn:Hnr; simpl.
  - apply normalize_records_shape in Hnr. unfold aggregate_data.
    pose proof (aggregate_results_sim _ _ Hnr [] [] (sim_refl [])) as Hsim.
    destruct (for_each rs aggregate_record []) as [rd|],
      (for_each rs' aggregate_record []) as [rd'|]; simpl; try easy.
    pose proof (mean_std_sim _ _ Hsim) as Hms.
    destruct (mean_std rd), (mean_std rd'); try easy.
  - apply normalize_records_raise in Hnr as (r & Hin & Hbad).
    now destruct (aggregate_data_raises rs r Hin Hbad) as [e' ->].
Qed.

Lemma X7_same_outcome_same_names_witness :
  Forall2 (fun l r => mixed_heap !! l = Some r) [0; 1] mixed_heap
  /\ match fst (aggregate_normalize_data [0; 1] (Some "b") mixed_heap),
           aggregate_data mixed_heap with
     | Ok m, Ok m' => dict_keys m = dict_keys m'
     | Raise _, Raise _ => True
     | _, _ => False
     end.
Proof.
  assert (H : Forall2 (fun l r => mixed_heap !! l = Some r) [0; 1] mixed_heap)
    by (repeat constructor).
  split; [exact H|].
  exact (X7_same_outcome_same_names [0; 1] (Some "b") mixed_heap mixed_heap H).
Defined.

(* --------------------------------------------------------------------- *)
(** *** Result files                                                      *)

Lemma append_inj_l (p a b : string) : (p ++ a = p ++ b)%string -> a = b.
Proof. induction p as [|c p IH]; simpl; [auto|]. intros [= H]. auto. Qed.

Lemma append_length (a b : string) :
  String.length (a ++ b) = String.length a + String.length b.
Proof. induction a as [|c a IH]; simpl; [reflexivity|now rewrite IH]. Qed.

Lemma append_inj_r (a b s : string) : (a ++ s = b ++ s)%string -> a = b.
Proof.
  revert b. induction a as [|c a IH]; intros [|d b] H.
  - reflexivity.
  - apply (f_equal String.length) in H. simpl in H.
    rewrite append_length in H. lia.
  - apply (f_equal String.length) in H. simpl in H.
    rewrite append_length in H. lia.
  - simpl in H. injection H as -> H. f_equal. now apply IH.
Qed.

Lemma append_assoc (a b c : string) :
  ((a ++ b) ++ c = a ++ (b ++ c))%string.
Proof. induction a as [|x a IH]; simpl; [reflexivity|now rewrite IH]. Qed.

Lemma str_of_int_inj (z z' : Z) : str_of_int z = str_of_int z' -> z = z'.
Proof.
  unfold str_of_int. intros H.
  assert (Hnn : forall z, Z.to_int z <> Decimal.Pos Decimal.Nil
                          /\ Z.to_int z <> Decimal.Neg Decimal.Nil).
  { intros [|p|p]; simpl; split; try discriminate;
      intros [= E]; now apply Unsigned.to_uint_nonnil in E. }
  assert (E : Some (Z.to_int z) = Some (Z.to_int z')).
  { rewrite <- (NilZero.isi (Z.to_int z)), <- (NilZero.isi (Z.to_int z'));
      try apply Hnn. now rewrite H. }
  injection E as E. rewrite <- (DecimalZ.of_to z), <- (DecimalZ.of_to z').
  now rewrite E.
Qed.

(** X8: without a date, two paths for the same folder and result name
    are equal only when the seeds are: two seeds never share a file. *)
Theorem X8_save_path_tells_seeds_apart (folder_name result_name : string)
    (seed seed' : Z) (now_string now_string' token token' : string)
    (Hpath : get_save_path folder_name result_name seed false now_string token
             = get_save_path folder_name result_name seed' false
                 now_string' token') :
  seed = seed'.
Proof.
  unfold get_save_path in Hpath. apply append_inj_r in Hpath.
  do 4 apply append_inj_l in Hpath. now apply str_of_int_inj.
Qed.

Lemma X8_save_path_tells_seeds_apart_witness :
  get_save_path "baseline" "bandit" 43 false "May_06_2023_03:15_PM" "a1b2"
  = "baseline/bandit_43.json"
  /\ 43%Z = 43%Z.
Proof.
  split; [vm_compute; reflexivity|].
  apply (X8_save_path_tells_seeds_apart "baseline" "bandit" 43 43
           "May_06_2023_03:15_PM" "" "a1b2" "").
  vm_compute; reflexivity.
Defined.

Lemma split_text_nonempty c s : split_text c s <> [].
Proof.
  destruct s as [|a s]; simpl; [discriminate|].
  destruct (N.eqb a c); [discriminate|].
  destruct (split_text c s); discriminate.
Qed.

Lemma split_text_hd c pre rest :
  has_char c pre = false ->
  List.hd [] (split_text c (pre ++ c :: rest)) = pre.
Proof.
  unfold has_char. induction pre as [|a pre IH]; simpl; intros H.
  - now rewrite N.eqb_refl.
  - apply orb_false_elim in H as [Ha Hpre]. rewrite N.eqb_sym, Ha.
    specialize (IH Hpre).
    destruct (split_text c (pre ++ c :: rest)) as [|seg segs] eqn:Hs.
    + now elim (split_text_nonempty c (pre ++ c :: rest)).
    + simpl in *. now subst.
Qed.

(** X9: when the text of a result file starts with [pre], shorter than
    1000 characters and without a closing brace, followed by a closing
    brace, the text given to [json.loads] is [pre] closed by two braces,
    whatever follows. *)
Theorem X9_header_of_result_file (pre rest : text)
    (Hbrace : has_char rbrace pre = false)
    (Hlen : length pre < 1000) :
  first_few (pre ++ rbrace :: rest) = pre ++ [rbrace; rbrace].
Proof.
  unfold first_few. f_equal.
  rewrite firstn_app.
  replace (1000 - length pre) with (Datatypes.S (999 - length pre)) by lia.
  rewrite firstn_all2 by lia. rewrite firstn_cons.
  now apply split_text_hd.
Qed.

Lemma X9_header_of_result_file_witness :
  has_char rbrace header_text = false
  /\ length header_text < 1000
  /\ first_few (header_text ++ rbrace :: body_text)
     = header_text ++ [rbrace; rbrace].
Proof.
  split; [reflexivity|]. split; [vm_compute; lia|].
  apply (X9_header_of_result_file header_text body_text);
    [reflexivity|vm_compute; lia].
Defined.

(* --------------------------------------------------------------------- *)
(** *** The baseline after normalization                                  *)

Lemma quotients_self (a : list Q) :
  Forall (fun q => (q == 1)%Q) (quotients a a).
Proof.
  induction a as [|x a IH]; simpl; [constructor|].
  destruct (Qeq_bool x 0) eqn:Hx; [exact IH|].
  constructor; [|exact IH].
  apply Qeq_bool_neq in Hx. unfold Qdiv. now apply Qmult_inv_r.
Qed.

Lemma Qsum_ones (qs : list Q) :
  Forall (fun q => (q == 1)%Q) qs ->
  (Qsum qs == inject_Z (Z.of_nat (length qs)))%Q.
Proof.
  induction 1 as [|q qs Hq _ IH]; [reflexivity|].
  unfold Qsum in *. cbn [fold_right length]. rewrite IH, Hq.
  rewrite Nat2Z.inj_succ, <- Z.add_1_l, inject_Z_plus. reflexivity.
Qed.

Lemma Qsum_zeros (qs : list Q) :
  Forall (fun q => (q == 0)%Q) qs -> (Qsum qs == 0)%Q.
Proof.
  induction 1 as [|q qs Hq _ IH]; [reflexivity|].
  unfold Qsum in *. cbn [fold_right]. rewrite IH, Hq. reflexivity.
Qed.

Lemma Qmean_ones (q : Q) (qs : list Q) :
  Forall (fun q => (q == 1)%Q) (q :: qs) -> Qmean (q :: qs) = 1%Q.
Proof.
  intros H. unfold Qmean. change 1%Q with (Qred 1). apply Qred_complete.
  rewrite (Qsum_ones _ H). unfold Qdiv. apply Qmult_inv_r.
  cbn [length]. rewrite Nat2Z.inj_succ.
  intros E. unfold Qeq in E. simpl in E. lia.
Qed.

Lemma Qmean_zeros (q : Q) (qs : list Q) :
  Forall (fun q => (q == 0)%Q) (q :: qs) -> Qmean (q :: qs) = 0%Q.
Proof.
  intros H. unfold Qmean. change 0%Q with (Qred 0). apply Qred_complete.
  rewrite (Qsum_zeros _ H). unfold Qdiv. apply Qmult_0_l.
Qed.

Lemma all_ones_numbers p :
  all_ones p ->
  exists qs, pool_numbers p = Some qs /\ Forall (fun q => (q == 1)%Q) qs.
Proof.
  induction 1 as [|e p (q & -> & Hq) _ (qs & Hqs & Hall)].
  - exists []. split; [reflexivity|constructor].
  - exists (q :: qs). simpl. rewrite Hqs. split; [reflexivity|].
    now constructor.
Qed.

Lemma all_ones_mean_std p :
  all_ones p ->
  np_mean p = Ok (match p with [] => nan | _ => fin 1 end)
  /\ np_std p = Ok (match p with [] => nan | _ => sqrt_fin 0 end).
Proof.
  intros H. destruct (all_ones_numbers p H) as (qs & Hqs & Hall).
  unfold np_mean, np_std. rewrite Hqs.
  destruct p as [|e p]; [now injection Hqs as <-|].
  destruct qs as [|q qs].
  { simpl in Hqs. destruct e; [|discriminate].
    now destruct (pool_numbers p). }
  rewrite (Qmean_ones q qs Hall). split; [reflexivity|].
  do 2 f_equal.
  assert (Hz : Forall (fun q => (q == 0)%Q)
                 (map (fun x => (x - 1) * (x - 1))%Q (q :: qs))).
  { apply Forall_map. eapply Forall_impl; [exact Hall|].
    intros x Hx. simpl. rewrite Hx. reflexivity. }
  cbn [map] in Hz |- *. now apply Qmean_zeros.
Qed.

Lemma normalize_ok_no_empty baseline (r r' : record) :
  normalize_data_point baseline r = (Ok tt, r') ->
  forall k, dict_get k r <> Some (VList []).
Proof.
  rewrite normalize_data_point_run.
  destruct (for_eachS _ _ _ r) as [[avg|e] r1] eqn:Hfirst; [|discriminate].
  intros _ k Hk.
  destruct (first_loop_complete _ _ _ _ _ _ Hfirst) as (_ & Hne & _).
  apply (Hne k); [|exact Hk]. apply dict_get_In. now rewrite Hk.
Qed.

Lemma normalize_records_map baseline rs rs' :
  Forall (fun r : record => NoDup (dict_keys r)) rs ->
  normalize_records baseline rs = Ok rs' ->
  rs' = map (normalized_record baseline) rs.
Proof.
  intros Hnd. revert rs'. induction Hnd as [|r rs Hr _ IH]; simpl; intros rs' H.
  - now injection H as <-.
  - destruct (normalize_data_point baseline r) as [[[]|e] r1] eqn:Hn;
      [|discriminate].
    apply bind_Ok_inv in H as (rs'' & Hrs & H). injection H as <-.
    rewrite (normalize_is_map baseline r Hr (normalize_ok_no_empty _ _ _ Hn))
      in Hn.
    injection Hn as <-. f_equal. now apply IH.
Qed.

Lemma normalized_baseline_ones b S (r : record) inner rest :
  data_type_of (format_key (Some b) S) = S ->
  dict_get (format_key (Some b) S) r = Some (VList (EList inner :: rest)) ->
  dict_get (format_key (Some b) S) (normalized_record (Some b) r)
  = Some (VArray float64 (quotients (map num_Q inner) (map num_Q inner))).
Proof.
  intros HS Hget.
  unfold normalized_record. rewrite normalized_record_get, Hget.
  cbn [fmap option_fmap option_map]. f_equal.
  unfold normalized_value, baseline_series.
  rewrite !HS, Hget, String.eqb_refl. cbn [conv].
  now rewrite Nat.eqb_refl.
Qed.

Lemma pool_of_all_ones k rs :
  (forall r, In r rs ->
     match dict_get k r with
     | Some v => all_ones (observations v)
     | None => True
     end) ->
  all_ones (pool_of k rs).
Proof.
  unfold pool_of. induction rs as [|r rs IH]; intros H; [constructor|].
  simpl. apply Forall_app. split.
  - specialize (H r (or_introl eq_refl)).
    destruct (dict_get k r); [exact H|constructor].
  - apply IH. intros; apply H; now right.
Qed.

Lemma quotients_self_nil (a : list Q) :
  quotients a a = [] <-> existsb (fun x => negb (Qeq_bool x 0)) a = false.
Proof.
  induction a as [|x a IH]; simpl; [tauto|].
  destruct (Qeq_bool x 0); simpl; [exact IH|]. split; discriminate.
Qed.

Lemma existsb_num_Q (f : Q -> bool) (l : list num) :
  existsb f (map num_Q l) = existsb (fun n => f (num_Q n)) l.
Proof. induction l as [|n l IH]; simpl; [reflexivity|now rewrite IH]. Qed.

Lemma pool_of_cons k r rs :
  pool_of k (r :: rs)
  = match dict_get k r with
    | Some v => observations v
    | None => []
    end ++ pool_of k rs.
Proof. reflexivity. Qed.

Section BaselinePool.
Variables (b S : string) (rs : list record).
Hypothesis HS : data_type_of (format_key (Some b) S) = S.
Hypothesis Hshape :
  forall r v, In r rs -> dict_get (format_key (Some b) S) r = Some v ->
              exists inner rest, v = VList (EList inner :: rest).

Lemma baseline_pool_all_ones :
  all_ones (pool_of (format_key (Some b) S)
              (map (normalized_record (Some b)) rs)).
Proof.
  apply pool_of_all_ones. intros r' Hin.
  apply in_map_iff in Hin as (r & <- & Hin).
  destruct (dict_get (format_key (Some b) S) r) as [v|] eqn:Hv.
  - destruct (Hshape r v Hin Hv) as (inner & rest & ->).
    rewrite (normalized_baseline_ones b S r inner rest HS Hv).
    simpl. apply Forall_map. eapply Forall_impl; [apply quotients_self|].
    intros q Hq. simpl. now exists q.
  - unfold normalized_record. now rewrite normalized_record_get, Hv.
Qed.

Lemma baseline_pool_nil :
  pool_of (format_key (Some b) S) (map (normalized_record (Some b)) rs) = []
  <-> has_nonzero (format_key (Some b) S) rs = false.
Proof.
  revert Hshape. induction rs as [|r rs' IH]; intros Hshape'; [easy|].
  cbn [map]. rewrite pool_of_cons. cbn [has_nonzero existsb].
  rewrite orb_false_iff, <- IH by (intros; eapply Hshape'; eauto; now right).
  destruct (dict_get (format_key (Some b) S) r) as [v|] eqn:Hv.
  - destruct (Hshape' r v (or_introl eq_refl) Hv) as (inner & rest & ->).
    rewrite (normalized_baseline_ones b S r inner rest HS Hv).
    cbn [observations].
    rewrite <- (existsb_num_Q (fun x => negb (Qeq_bool x 0))),
      <- quotients_self_nil.
    split.
    + intros H. apply app_eq_nil in H as [H1 H2]. split; [|exact H2].
      now destruct (quotients _ _).
    + intros [H1 H2]. now rewrite H1, H2.
  - unfold normalized_record at 1. rewrite normalized_record_get, Hv.
    simpl. tauto.
Qed.

Lemma baseline_skipped :
  (forall r' v', In r' (map (normalized_record (Some b)) rs) ->
                 dict_get (format_key (Some b) S) r' = Some v' -> skipped v')
  <-> occurs (format_key (Some b) S) rs = false.
Proof.
  revert Hshape. induction rs as [|r rs' IH]; intros Hshape'.
  - split; [reflexivity|intros _ r' v' []].
  - cbn [occurs existsb map]. rewrite orb_false_iff, <- IH
      by (intros; eapply Hshape'; eauto; now right).
    unfold dict_mem.
    destruct (dict_get (format_key (Some b) S) r) as [v|] eqn:Hv.
    + destruct (Hshape' r v (or_introl eq_refl) Hv) as (inner & rest & ->).
      pose proof (normalized_baseline_ones b S r inner rest HS Hv) as Hn.
      split; [|now intros [? _]].
      intros H. elim (H _ _ (or_introl eq_refl) Hn).
    + split.
      * intros H. split; [reflexivity|]. intros r' v' Hin. apply H. now right.
      * intros [_ H] r' v' [<-|Hin]; [|now apply H].
        unfold normalized_record. now rewrite normalized_record_get, Hv.
Qed.
End BaselinePool.

(** X10: after normalization the baseline is ones.  When the records
    have distinct keys and every occurrence of the baseline metric
    [baseline_S] is a list of list, [aggregate_normalize_data] returns for
    that metric the pair (1.0, 0.0) when some occurrence holds an element
    that is not zero, the pair (nan, nan) when none does, and no pair when
    no record has the metric. *)
Theorem X10_baseline_is_ones (results : list loc) (b S : string) (h : heap)
    (rs : list record) (m : dict (npfloat * npfloat))
    (Hrs : Forall2 (fun l r => h !! l = Some r) results rs)
    (Hkeys : Forall (fun r : record => NoDup (dict_keys r)) rs)
    (HS : data_type_of (format_key (Some b) S) = S)
    (Hshape : forall r v, In r rs ->
                dict_get (format_key (Some b) S) r = Some v ->
                exists inner rest, v = VList (EList inner :: rest))
    (Hm : fst (aggregate_normalize_data results (Some b) h) = Ok m) :
  dict_get (format_key (Some b) S) m
  = if occurs (format_key (Some b) S) rs
    then Some (if has_nonzero (format_key (Some b) S) rs
               then (fin 1, sqrt_fin 0) else (nan, nan))
    else None.
Proof.
  rewrite (normalize_refines _ _ _ _ Hrs) in Hm.
  apply bind_Ok_inv in Hm as (rs' & Hnr & Hagg).
  apply (normalize_records_map _ _ _ Hkeys) in Hnr. subst rs'.
  unfold aggregate_data in Hagg.
  apply bind_Ok_inv in Hagg as (rd & Hrd & Hms).
  pose proof (baseline_skipped b S rs HS Hshape) as Hocc.
  destruct (dict_get (format_key (Some b) S) m) as [[x s]|] eqn:Hk.
  - destruct (occurs _ rs).
    + destruct (mean_std_get _ _ _ _ _ Hms Hk) as (p & Hp & Hx & Hs).
      assert (Hkeys' : Forall (fun r : record => NoDup (dict_keys r))
                         (map (normalized_record (Some b)) rs)).
      { apply Forall_map. eapply Forall_impl; [exact Hkeys|].
        intros r Hr. simpl. now rewrite normalized_record_keys. }
      pose proof (aggregate_results_pool (format_key (Some b) S) _ Hkeys'
                    _ _ Hrd) as Hpool.
      rewrite Hp in Hpool. simpl in Hpool. subst p.
      destruct (all_ones_mean_std _ (baseline_pool_all_ones b S rs HS Hshape))
        as [H1 H2].
      rewrite H1 in Hx. rewrite H2 in Hs.
      injection Hx as <-. injection Hs as <-.
      pose proof (baseline_pool_nil b S rs HS Hshape) as Hnil.
      destruct (pool_of _ _), (has_nonzero _ rs); try reflexivity.
      * discriminate (proj1 Hnil eq_refl).
      * discriminate (proj2 Hnil eq_refl).
    + assert (Hnone : dict_get (format_key (Some b) S) m = None);
        [|congruence].
      apply (mean_std_absent _ _ _ Hms).
      apply (aggregate_results_absent _ _ _ _ Hrd). split; [reflexivity|].
      now apply Hocc.
  - apply (mean_std_absent _ _ _ Hms) in Hk.
    apply (aggregate_results_absent _ _ _ _ Hrd) in Hk as [_ Hk].
    apply Hocc in Hk. now rewrite Hk.
Qed.

Lemma X10_baseline_is_ones_witness :
  Forall2 (fun l r => zero_baseline_heap !! l = Some r) [0; 1]
    zero_baseline_heap
  /\ Forall (fun r : record => NoDup (dict_keys r)) zero_baseline_heap
  /\ data_type_of (format_key (Some "b") "r") = "r"
  /\ data_type_of (format_key (Some "b") "c") = "c"
  /\ fst (aggregate_normalize_data [0; 1] (Some "b") zero_baseline_heap)
     = Ok [("b_r", (fin 1, sqrt_fin 0));
           ("m_r", (fin (35 # 4), sqrt_fin (25 # 16)));
           ("b_c", (nan, nan)); ("m_c", (nan, nan))]
  /\ dict_get "b_r" [("b_r", (fin 1, sqrt_fin 0));
                     ("m_r", (fin (35 # 4), sqrt_fin (25 # 16)));
                     ("b_c", (nan, nan)); ("m_c", (nan, nan))]
     = Some (fin 1, sqrt_fin 0)
  /\ dict_get "b_c" [("b_r", (fin 1, sqrt_fin 0));
                     ("m_r", (fin (35 # 4), sqrt_fin (25 # 16)));
                     ("b_c", (nan, nan)); ("m_c", (nan, nan))]
     = Some (nan, nan).
Proof.
  assert (Hrs : Forall2 (fun l r => zero_baseline_heap !! l = Some r) [0; 1]
                  zero_baseline_heap) by (repeat constructor).
  assert (Hkeys : Forall (fun r : record => NoDup (dict_keys r))
                    zero_baseline_heap).
  { repeat (apply Forall_cons_2; [simpl; nodup_keys|]). apply Forall_nil_2. }
  assert (Hshape : forall S r v, In r zero_baseline_heap ->
              dict_get (format_key (Some "b") S) r = Some v ->
              S = "r" \/ S = "c" ->
              exists inner rest, v = VList (EList inner :: rest)).
  { intros S r v [<-|[<-|[]]] Hv [-> | ->]; vm_compute in Hv;
      try discriminate; injection Hv as <-; now eexists _, _. }
  assert (Hm : fst (aggregate_normalize_data [0; 1] (Some "b")
                      zero_baseline_heap)
               = Ok [("b_r", (fin 1, sqrt_fin 0));
                     ("m_r", (fin (35 # 4), sqrt_fin (25 # 16)));
                     ("b_c", (nan, nan)); ("m_c", (nan, nan))])
    by (vm_compute; reflexivity).
  split; [exact Hrs|]. split; [exact Hkeys|]. split; [reflexivity|].
  split; [reflexivity|]. split; [exact Hm|]. split.
  - apply (X10_baseline_is_ones [0; 1] "b" "r" zero_baseline_heap
             zero_baseline_heap _ Hrs Hkeys eq_refl); [|exact Hm].
    intros r v Hin Hv. apply (Hshape "r" r v Hin Hv). now left.
  - apply (X10_baseline_is_ones [0; 1] "b" "c" zero_baseline_heap
             zero_baseline_heap _ Hrs Hkeys eq_refl); [|exact Hm].
    intros r v Hin Hv. apply (Hshape "c" r v Hin Hv). now right.
Defined.

(* --------------------------------------------------------------------- *)
(** *** A baseline of ones in one suffix group                            *)

Lemma is_one_sound n : is_one n = true -> num_Q n = 1%Q.
Proof.
  destruct n as [z|q]; unfold is_one; simpl num_Q; intros H.
  - apply Z.eqb_eq in H. now subst.
  - apply andb_prop in H as [Ha Hd]. apply Z.eqb_eq in Ha.
    apply Pos.eqb_eq in Hd. destruct q as [a d]. simpl in *. now subst.
Qed.

Lemma normalize_group_eq b S (r r' : record) :
  group_onesb b S r = true ->
  normalize_data_point (Some b) r = (Ok tt, r') ->
  group_eq S r r'.
Proof.
  intros Hones. rewrite normalize_data_point_run.
  destruct (for_eachS _ _ _ r) as [[avg|e] r1] eqn:Hfirst; [|discriminate].
  apply first_loop_all_keys in Hfirst as (Hkeys1 & Hget1 & Havg).
  intros Hsecond.
  apply (second_loop_spec_keyed
           (fun k v v' => data_type_of k = S -> agg_eq v v'))
    in Hsecond as (_ & Hkeys & Hrel).
  - split; [congruence|]. intros k Hk.
    specialize (Hrel k). rewrite Hget1 in Hrel.
    destruct (dict_get k r) as [v|]; inversion Hrel as [? w Hagg|]; subst;
      constructor.
    eapply agg_eq_trans; [apply conv_agg_eq|now apply Hagg].
  - intros k v _. apply agg_eq_refl.
  - intros k u v w H1 H2 Hk. eapply agg_eq_trans; eauto.
  - intros S' s Hs. now destruct (Havg S' s Hs) as (? & ? & _ & _ & ->).
  - intros k dt bb v v' Hs Hdiv Hk. rewrite Hk in Hs.
    destruct (Havg S _ Hs) as (inner & rest & _ & Hbase & Heq).
    injection Heq as -> ->.
    destruct (divide_masked_array _ _ _ Hdiv) as (dt' & a & a' & -> & _).
    apply divide_masked_ones in Hdiv as ->; [apply agg_eq_array|].
    unfold group_onesb in Hones. rewrite Hbase in Hones.
    rewrite forallb_forall in Hones.
    apply Forall_map, Forall_forall. intros n Hn.
    apply is_one_sound, Hones. now apply list_elem_of_In.
  - intros k Hin. now apply keys_present.
Qed.

Lemma normalize_records_group b S rs rs' :
  Forall (fun r => group_onesb b S r = true) rs ->
  normalize_records (Some b) rs = Ok rs' ->
  Forall2 (group_eq S) rs rs'.
Proof.
  intros Hones. revert rs'.
  induction Hones as [|r rs Hr _ IH]; simpl; intros rs' H.
  - injection H as <-. constructor.
  - destruct (normalize_data_point (Some b) r) as [[[]|e] r1] eqn:Hn;
      [|discriminate].
    apply bind_Ok_inv in H as (rs'' & Hrs & H). injection H as <-.
    constructor; [now apply (normalize_group_eq b)|now apply IH].
Qed.

Lemma aggregate_value_other k k' v rd rd' :
  aggregate_value k' v rd = Ok rd' -> k' <> k ->
  dict_get k rd' = dict_get k rd.
Proof.
  intros H Hne. apply aggregate_value_inv in H as [[_ ->]|[_ [obs ->]]];
    [reflexivity|].
  rewrite add_obs_get. now destruct (String.eqb_spec k' k).
Qed.

Lemma aggregate_value_agg_eq k v v' rd rd' a a' :
  agg_eq v v' -> dict_get k rd = dict_get k rd' ->
  aggregate_value k v rd = Ok a -> aggregate_value k v' rd' = Ok a' ->
  dict_get k a = dict_get k a'.
Proof.
  intros Hagg Hrd Ha Ha'. specialize (Hagg k []).
  destruct (aggregate_value_cases k v) as [[e H]|[H|[obs H]]];
    destruct (aggregate_value_cases k v') as [[e' H']|[H'|[obs' H']]];
    rewrite H in Ha, Hagg; rewrite H' in Ha', Hagg; try discriminate;
    injection Ha as <-; injection Ha' as <-;
    rewrite ?add_obs_nil in Hagg; try discriminate.
  - exact Hrd.
  - injection Hagg as <-. now rewrite !add_obs_get, String.eqb_refl, Hrd.
Qed.

Lemma aggregate_record_group S k (r r' : record) rd rd' a a' :
  group_eq S r r' -> data_type_of k = S ->
  dict_get k rd = dict_get k rd' ->
  aggregate_record r rd = Ok a -> aggregate_record r' rd' = Ok a' ->
  dict_get k a = dict_get k a'.
Proof.
  intros [Hkeys Hval] HS. unfold aggregate_record. rewrite <- Hkeys.
  generalize (dict_keys r) as ks. intros ks. revert rd rd'.
  induction ks as [|k0 ks IH]; intros rd rd' Hrd Ha Ha'.
  - injection Ha as <-. now injection Ha' as <-.
  - simpl in Ha, Ha'.
    apply bind_Ok_inv in Ha as (rd1 & H1 & Ha).
    apply bind_Ok_inv in Ha' as (rd1' & H1' & Ha').
    apply bind_Ok_inv in H1 as (v & Hv & H1).
    apply bind_Ok_inv in H1' as (v' & Hv' & H1').
    apply (IH rd1 rd1'); [|exact Ha|exact Ha'].
    destruct (String.eqb_spec k0 k) as [->|Hne].
    + unfold getitem in Hv, Hv'. specialize (Hval k HS).
      destruct Hval as [w w' Hagg|]; [|discriminate].
      injection Hv as <-. injection Hv' as <-.
      now apply (aggregate_value_agg_eq k w w' rd rd').
    + rewrite (aggregate_value_other k _ _ _ _ H1 Hne).
      now rewrite (aggregate_value_other k _ _ _ _ H1' Hne).
Qed.

Lemma aggregate_results_group S k rs rs' :
  Forall2 (group_eq S) rs rs' -> data_type_of k = S ->
  forall rd rd' a a',
    dict_get k rd = dict_get k rd' ->
    for_each rs aggregate_record rd = Ok a ->
    for_each rs' aggregate_record rd' = Ok a' ->
    dict_get k a = dict_get k a'.
Proof.
  intros Hrs HS. induction Hrs as [|r r' rs rs' Hr _ IH];
    intros rd rd' a a' Hrd Ha Ha'.
  - injection Ha as <-. now injection Ha' as <-.
  - simpl in Ha, Ha'.
    apply bind_Ok_inv in Ha as (rd1 & H1 & Ha).
    apply bind_Ok_inv in Ha' as (rd1' & H1' & Ha').
    apply (IH rd1 rd1'); [|exact Ha|exact Ha'].
    now apply (aggregate_record_group S k r r' rd rd').
Qed.

Lemma mean_std_lookup rd m k :
  mean_std rd = Ok m ->
  dict_get k m
  = match dict_get k rd with
    | Some p =>
        match np_mean p, np_std p with
        | Ok x, Ok s => Some (x, s)
        | _, _ => None
        end
    | None => None
    end.
Proof.
  revert m. induction rd as [|[i p] rd IH]; simpl; intros m H.
  - now injection H as <-.
  - apply bind_Ok_inv in H as (mu & Hmu & H).
    apply bind_Ok_inv in H as (sd & Hsd & H).
    apply bind_Ok_inv in H as (m' & Hm' & H).
    injection H as <-. simpl.
    destruct (String.eqb i k); [now rewrite Hmu, Hsd|now apply IH].
Qed.

(** C9: when, in every record, the baseline series of the suffix group
    [S] is all ones, normalized aggregation returns a mapping exactly when
    plain aggregation does, and every metric of that group has the same
    (mean, std) pair in both, whatever the baselines of the other groups
    are.  The numbers being exact, the pairs are equal and not only
    close. *)
Theorem C9_all_ones_baseline (results : list loc) (b S : string) (h : heap)
    (rs : list record)
    (Hrs : Forall2 (fun l r => h !! l = Some r) results rs)
    (Hones : Forall (fun r => group_onesb b S r = true) rs) :
  match fst (aggregate_normalize_data results (Some b) h), aggregate_data rs with
  | Ok m, Ok m' =>
      forall k, data_type_of k = S -> dict_get k m = dict_get k m'
  | Raise _, Raise _ => True
  | _, _ => False
  end.
Proof.
  rewrite (normalize_refines _ _ _ _ Hrs).
  destruct (normalize_records (Some b) rs) as [rs'|e] eqn:Hnr; simpl.
  - pose proof (normalize_records_group _ _ _ _ Hones Hnr) as Hgroup.
    apply normalize_records_shape in Hnr. unfold aggregate_data.
    pose proof (aggregate_results_sim _ _ Hnr [] [] (sim_refl [])) as Hsim.
    destruct (for_each rs aggregate_record []) as [rd|] eqn:Hrd,
      (for_each rs' aggregate_record []) as [rd'|] eqn:Hrd'; simpl; try easy.
    pose proof (mean_std_sim _ _ Hsim) as Hms.
    destruct (mean_std rd) as [m'|] eqn:Hm', (mean_std rd') as [m|] eqn:Hm;
      try easy.
    intros k Hk.
    rewrite (mean_std_lookup _ _ k Hm), (mean_std_lookup _ _ k Hm').
    now rewrite (aggregate_results_group S k _ _ Hgroup Hk [] [] _ _
                   eq_refl Hrd Hrd').
  - apply normalize_records_raise in Hnr as (r & Hin & Hbad).
    now destruct (aggregate_data_raises rs r Hin Hbad) as [e' ->].
Qed.

Lemma C9_all_ones_baseline_witness :
  Forall2 (fun l r => two_groups_heap !! l = Some r) [0; 1] two_groups_heap
  /\ Forall (fun r => group_onesb "b" "r" r = true) two_groups_heap
  /\ match fst (aggregate_normalize_data [0; 1] (Some "b") two_groups_heap),
           aggregate_data two_groups_heap with
     | Ok m, Ok m' =>
         forall k, data_type_of k = "r" -> dict_get k m = dict_get k m'
     | Raise _, Raise _ => True
     | _, _ => False
     end.
Proof.
  assert (Hrs : Forall2 (fun l r => two_groups_heap !! l = Some r) [0; 1]
                  two_groups_heap) by (repeat constructor).
  assert (Hones : Forall (fun r => group_onesb "b" "r" r = true)
                    two_groups_heap) by (repeat constructor).
  split; [exact Hrs|]. split; [exact Hones|].
  exact (C9_all_ones_baseline [0; 1] "b" "r" two_groups_heap two_groups_heap
           Hrs Hones).
Defined.
